(** * The chimp client: store, transport hook and audio capture

  A shallow embedding of the TypeScript client of the voice-driven
  simulation:

  - [Types]: the declarations of [types/world.ts];
  - [AppStore]: the zustand store of [store/appStore.ts];
  - [UseWebSocket]: the transport hook of [hooks/useWebSocket.ts];
  - [UseAudioStream]: the capture hook of [hooks/useAudioStream.ts];
  - [UseSpeechRecognition]: the hook of [hooks/useSpeechRecognition.ts];
  - [Components]: the input handlers of [components/UI.tsx];
  - [UseSimulationSocket] and [PushToTalk]: the socket hook of
    [hooks/useSimulationSocket.ts] and the [App] that drives it.

  Mutable JavaScript state is passed explicitly.  Code that logs, draws
  random identifiers, reads the clock or may throw runs in the monad
  [UseWebSocket.M], a state monad over the hook's world whose results
  are JavaScript completions (normal or thrown). *)

From Stdlib Require Import ZArith QArith Lia.
From stdpp Require Import base option list strings.

Set Warnings "-register-all".
Close Scope Q_scope.
Local Open Scope string_scope.
Local Open Scope list_scope.

(* ===================================================================== *)
(** * types/world.ts *)
(* ===================================================================== *)

Module Types.

(** A JSON number.  The client only stores and forwards the numbers it
    receives, so the rational that the decimal literal denotes stands
    for it. *)
Definition number : Type := Q.

(** [Date] objects: milliseconds since the epoch. *)
Definition Date : Type := Z.

(** Values typed [unknown] in the source: whatever [JSON.parse] built. *)
Inductive JSON : Type :=
| JNull
| JBool (b : bool)
| JNumber (n : number)
| JString (s : string)
| JArray (items : list JSON)
| JObject (fields : list (string * JSON)).

(** [Record<string, T>] *)
Definition Record_ (T : Type) : Type := list (string * T).

Inductive IntentType : Type :=
| buy_item | negotiate | ask_info | give_item | move | interact | greet
| unknown.

Inductive Tense : Type := present | past | conditional | future.
Inductive Politeness : Type := pol_neutral | polite | rude.
Inductive NPCMood : Type := friendly | neutral | annoyed | angry.
Inductive WorldTime : Type := morning | afternoon | evening | night.

Record GrammarFeatures : Type := {
  tense : Tense;
  politeness : Politeness;
  required_constructs_present : list string;
}.

Record ActionEntities : Type := {
  item : option string;
  quantity : option number;
  target : option string;
}.

Record ParsedAction : Type := {
  intent : IntentType;
  entities : ActionEntities;
  grammar_features : GrammarFeatures;
  confidence : number;
  canonical_transcript : string;
  feedback_keys : list string;
}.

Record NPCState : Type := {
  npc_id : string;
  npc_name : string;
  npc_role : string;
  npc_position : number * number * number;
  npc_mood : NPCMood;
  npc_inventory : Record_ number;
  npc_patience : number;
  npc_dialogue_history : list string;
}.

Record PlayerState : Type := {
  player_position : number * number * number;
  player_inventory : Record_ number;
  gold : number;
  reputation : number;
}.

Record MissionState : Type := {
  mission_id : string;
  title : string;
  description : string;
  grammar_requirement : string;
  success_condition : string;
  is_complete : bool;
  attempts : number;
}.

Record WorldState : Type := {
  ws_timestamp : string;
  player : PlayerState;
  npcs : list NPCState;
  current_mission : option MissionState;   (* MissionState | null *)
  completed_missions : list string;
  world_time : WorldTime;
}.

Record WorldDiff : Type := {
  player_changes : Record_ JSON;
  npc_changes : Record_ (Record_ JSON);
  mission_changes : Record_ JSON;
  npc_dialogue : option string;            (* string | null *)
  world_event : option string;             (* string | null *)
}.

(** The message union [ServerMessage] is discriminated by the string
    field [type]; TypeScript erases the union at run time, and the
    handler reads the fields of whatever object [JSON.parse] returned.
    A message is therefore the record of the property reads the client
    performs: [None] is JavaScript's [undefined] (the property is
    absent), and a property that is present has the type that
    [types/world.ts] declares for it.  The tag itself is any string, or
    absent. *)
Record ServerMessage : Type := {
  msg_type : option string;
  (* TranscriptMessage *)
  msg_text : option string;
  msg_is_final : option bool;
  (* ActionResultMessage *)
  msg_parsed_action : option ParsedAction;
  msg_validation_passed : option bool;
  msg_feedback : option (list string);
  msg_world_diff : option WorldDiff;
  (* WorldStateMessage *)
  msg_state : option WorldState;
  (* ReasoningChainMessage *)
  msg_agent : option string;
  msg_step : option string;
  msg_details : option (Record_ JSON);
  (* ErrorMessage *)
  msg_message : option string;
  msg_recoverable : option bool;
  (* NPCAudioMessage *)
  msg_audio_data : option string;
  msg_npc_name : option string;
  msg_dialogue : option string;
  msg_mood : option string;
}.

(** The object that carries no property the handler reads. *)
Definition empty_message : ServerMessage := {|
  msg_type := None; msg_text := None; msg_is_final := None;
  msg_parsed_action := None; msg_validation_passed := None;
  msg_feedback := None; msg_world_diff := None; msg_state := None;
  msg_agent := None; msg_step := None; msg_details := None;
  msg_message := None; msg_recoverable := None; msg_audio_data := None;
  msg_npc_name := None; msg_dialogue := None; msg_mood := None;
|}.

(** [{ type: tag }] *)
Definition TaggedMessage (tag : string) : ServerMessage := {|
  msg_type := Some tag; msg_text := None; msg_is_final := None;
  msg_parsed_action := None; msg_validation_passed := None;
  msg_feedback := None; msg_world_diff := None; msg_state := None;
  msg_agent := None; msg_step := None; msg_details := None;
  msg_message := None; msg_recoverable := None; msg_audio_data := None;
  msg_npc_name := None; msg_dialogue := None; msg_mood := None;
|}.

(** [{ type: 'world_state', state }] *)
Definition WorldStateMessage (state : WorldState) : ServerMessage := {|
  msg_type := Some "world_state"; msg_text := None; msg_is_final := None;
  msg_parsed_action := None; msg_validation_passed := None;
  msg_feedback := None; msg_world_diff := None; msg_state := Some state;
  msg_agent := None; msg_step := None; msg_details := None;
  msg_message := None; msg_recoverable := None; msg_audio_data := None;
  msg_npc_name := None; msg_dialogue := None; msg_mood := None;
|}.

(** [{ type: 'transcript', text, is_final }] *)
Definition TranscriptMessage (text : string) (is_final : bool) : ServerMessage := {|
  msg_type := Some "transcript"; msg_text := Some text;
  msg_is_final := Some is_final;
  msg_parsed_action := None; msg_validation_passed := None;
  msg_feedback := None; msg_world_diff := None; msg_state := None;
  msg_agent := None; msg_step := None; msg_details := None;
  msg_message := None; msg_recoverable := None; msg_audio_data := None;
  msg_npc_name := None; msg_dialogue := None; msg_mood := None;
|}.

Inductive EntryType : Type := player_entry | npc_entry | system_entry | feedback_entry.

Record TranscriptEntry : Type := {
  te_id : string;
  te_type : EntryType;
  te_text : string;
  te_timestamp : Date;
}.

(** A reasoning step copies [agent], [step] and [details] from the
    message, so each is [undefined] when the message omits it. *)
Record ReasoningStep : Type := {
  rs_id : string;
  rs_agent : option string;
  rs_step : option string;
  rs_details : option (Record_ JSON);
  rs_timestamp : Date;
}.

(** [Omit<TranscriptEntry, 'id' | 'timestamp'>] *)
Record TranscriptInput : Type := {
  ti_type : EntryType;
  ti_text : string;
}.

(** [Omit<ReasoningStep, 'id' | 'timestamp'>] *)
Record ReasoningInput : Type := {
  ri_agent : option string;
  ri_step : option string;
  ri_details : option (Record_ JSON);
}.

End Types.

(* ===================================================================== *)
(** * store/appStore.ts *)
(* ===================================================================== *)

Module AppStore.
Import Types.

Record AppState : Type := mkAppState {
  sessionId : option string;               (* string | null *)
  isConnected : bool;
  worldState : option WorldState;
  mission : option MissionState;
  transcripts : list TranscriptEntry;
  reasoningChain : list ReasoningStep;
  lastAction : option ParsedAction;
  (* [string[]] in the interface; [setLastAction] stores what the
     message carried, which is [undefined] when [feedback] is absent *)
  lastFeedback : option (list string);
  npcDialogue : option string;
  isRecording : bool;
}.

Definition initial : AppState := {|
  sessionId := None;
  isConnected := false;
  worldState := None;
  mission := None;
  transcripts := [];
  reasoningChain := [];
  lastAction := None;
  lastFeedback := Some [];
  npcDialogue := None;
  isRecording := false;
|}.

(** [Array.prototype.slice(-n)]: the start index is [max (len - n) 0],
    which is truncated subtraction on [nat]. *)
Definition slice_last {A : Type} (n : nat) (l : list A) : list A :=
  drop (length l - n) l.

Definition setSessionId (id : option string) (s : AppState) : AppState :=
  mkAppState id (isConnected s) (worldState s) (mission s) (transcripts s)
    (reasoningChain s) (lastAction s) (lastFeedback s) (npcDialogue s)
    (isRecording s).

Definition setConnected (connected : bool) (s : AppState) : AppState :=
  mkAppState (sessionId s) connected (worldState s) (mission s)
    (transcripts s) (reasoningChain s) (lastAction s) (lastFeedback s)
    (npcDialogue s) (isRecording s).

(** [state.current_mission || null]: a mission object is truthy, [null]
    is not, so the disjunction is the field itself. *)
Definition setWorldState (state : WorldState) (s : AppState) : AppState :=
  mkAppState (sessionId s) (isConnected s) (Some state)
    (current_mission state) (transcripts s) (reasoningChain s)
    (lastAction s) (lastFeedback s) (npcDialogue s) (isRecording s).

Definition setMission (m : MissionState) (s : AppState) : AppState :=
  mkAppState (sessionId s) (isConnected s) (worldState s) (Some m)
    (transcripts s) (reasoningChain s) (lastAction s) (lastFeedback s)
    (npcDialogue s) (isRecording s).

(** [generateId ()] and [new Date ()] are read from the environment by
    the caller and passed in as [id] and [now]. *)
Definition addTranscript (entry : TranscriptInput) (id : string) (now : Date)
    (s : AppState) : AppState :=
  mkAppState (sessionId s) (isConnected s) (worldState s) (mission s)
    (slice_last 50 (transcripts s) ++
       [ {| te_id := id; te_type := ti_type entry; te_text := ti_text entry;
            te_timestamp := now |} ])
    (reasoningChain s) (lastAction s) (lastFeedback s) (npcDialogue s)
    (isRecording s).

Definition addReasoningStep (step : ReasoningInput) (id : string) (now : Date)
    (s : AppState) : AppState :=
  mkAppState (sessionId s) (isConnected s) (worldState s) (mission s)
    (transcripts s)
    (slice_last 20 (reasoningChain s) ++
       [ {| rs_id := id; rs_agent := ri_agent step; rs_step := ri_step step;
            rs_details := ri_details step; rs_timestamp := now |} ])
    (lastAction s) (lastFeedback s) (npcDialogue s) (isRecording s).

Definition clearReasoningChain (s : AppState) : AppState :=
  mkAppState (sessionId s) (isConnected s) (worldState s) (mission s)
    (transcripts s) [] (lastAction s) (lastFeedback s) (npcDialogue s)
    (isRecording s).

Definition setLastAction (action : option ParsedAction)
    (feedback : option (list string)) (s : AppState) : AppState :=
  mkAppState (sessionId s) (isConnected s) (worldState s) (mission s)
    (transcripts s) (reasoningChain s) action feedback (npcDialogue s)
    (isRecording s).

Definition setNpcDialogue (dialogue : option string) (s : AppState) : AppState :=
  mkAppState (sessionId s) (isConnected s) (worldState s) (mission s)
    (transcripts s) (reasoningChain s) (lastAction s) (lastFeedback s)
    dialogue (isRecording s).

Definition setRecording (recording : bool) (s : AppState) : AppState :=
  mkAppState (sessionId s) (isConnected s) (worldState s) (mission s)
    (transcripts s) (reasoningChain s) (lastAction s) (lastFeedback s)
    (npcDialogue s) recording.

Definition reset (_ : AppState) : AppState := initial.

(** A call of one of the two bounded-log actions, with the identifier
    and the time stamp the environment supplied to it. *)
Inductive LogCall : Type :=
| CallAddTranscript (entry : TranscriptInput) (id : string) (now : Date)
| CallAddReasoningStep (step : ReasoningInput) (id : string) (now : Date).

Definition run_call (s : AppState) (c : LogCall) : AppState :=
  match c with
  | CallAddTranscript e id now => addTranscript e id now s
  | CallAddReasoningStep st id now => addReasoningStep st id now s
  end.

Definition run_calls (cs : list LogCall) (s : AppState) : AppState :=
  fold_left run_call cs s.

End AppStore.

(* ===================================================================== *)
(** * hooks/useWebSocket.ts *)
(* ===================================================================== *)

Module UseWebSocket.
Import Types AppStore.

(** ** The browser around the hook *)

Inductive ReadyState : Type := CONNECTING | OPEN | CLOSING | CLOSED.

#[global] Instance ReadyState_eq_dec : EqDecision ReadyState.
Proof. solve_decision. Defined.

(** What the client puts on the wire; [JSON.stringify] of these objects. *)
Inductive ClientMessage : Type :=
| TranscriptOut (text : string) (is_final : bool)
| PingOut.

Inductive Exn : Type :=
| TypeError (what : string)
| SyntaxError
| InvalidStateError
| InvalidCharacterError.

Inductive LogLine : Type :=
| console_log_line (text : string)
| console_error_line (text : string).

(** The values of one render of the component that the callbacks created
    in that render close over.  [sessionId] is read from the store and
    [isReconnecting] from [useState] when the component function runs;
    both are [const] bindings, so a callback keeps the values of the
    render that created it, whatever the store or the state cell hold
    when the callback eventually runs. *)
Record Render : Type := {
  r_sessionId : option string;
  r_isReconnecting : bool;
}.

(** A [WebSocket] object.  [owner] is the render whose [connect] built it:
    the closure environment of its [onclose] handler. *)
Record WebSocket : Type := mkWebSocket {
  url : string;
  readyState : ReadyState;
  owner : Render;
  sent : list ClientMessage;
}.

(** What the hook takes from the platform and the build.
    [JSON_parse data] is [None] when [JSON.parse] throws a [SyntaxError],
    [Some None] when the text denotes [null] and [Some (Some m)] for any
    other value, read through its properties.  [random36 k] holds the
    digits that follow the point when the k-th value of [Math.random ()]
    is written in base 36. *)
Record Platform : Type := {
  JSON_parse : string -> option (option ServerMessage);
  atob_ok : string -> bool;
  random36 : nat -> list nat;
  env_DEV : bool;
  location_host : string;
}.

(** The digits of base 36, as [Number.prototype.toString (36)] writes
    them. *)
Definition digit36 (d : nat) : Ascii.ascii :=
  nth (d mod 36)
    (String.list_ascii_of_string "0123456789abcdefghijklmnopqrstuvwxyz")
    (Ascii.ascii_of_nat 48).

(** [x.toString(36).substring(2, 9)] for [x] in [0, 1): at most seven of
    the digits after the point. *)
Definition toString36 (digits : list nat) : string :=
  String.string_of_list_ascii (map digit36 (take 7 digits)).

(** The k-th value of [Math.random().toString(36).substring(2, 9)]. *)
Definition random_id (p : Platform) (k : nat) : string :=
  toString36 (random36 p k).

Record World : Type := mkWorld {
  platform : Platform;
  store : AppState;                        (* useAppStore *)
  wsRef : option nat;                      (* index into [sockets] *)
  sockets : list WebSocket;                (* every socket ever built *)
  reconnectTimeoutRef : option nat;
  isReconnecting : bool;                   (* the useState cell *)
  timers : list (nat * Render);            (* pending setTimeout callbacks *)
  timerSeq : nat;                          (* timer ids handed out so far *)
  console : list LogLine;
  playing : list string;                   (* audio playbacks started *)
  drawn : nat;                             (* Math.random draws so far *)
  clock : Z;                               (* Date.now () *)
}.

Definition set_store (f : AppState -> AppState) (w : World) : World :=
  mkWorld (platform w) (f (store w)) (wsRef w) (sockets w)
    (reconnectTimeoutRef w) (isReconnecting w) (timers w) (timerSeq w)
    (console w) (playing w) (drawn w) (clock w).

Definition set_wsRef (r : option nat) (w : World) : World :=
  mkWorld (platform w) (store w) r (sockets w) (reconnectTimeoutRef w)
    (isReconnecting w) (timers w) (timerSeq w) (console w) (playing w)
    (drawn w) (clock w).

Definition set_sockets (f : list WebSocket -> list WebSocket) (w : World) : World :=
  mkWorld (platform w) (store w) (wsRef w) (f (sockets w))
    (reconnectTimeoutRef w) (isReconnecting w) (timers w) (timerSeq w)
    (console w) (playing w) (drawn w) (clock w).

Definition set_reconnectTimeoutRef (r : option nat) (w : World) : World :=
  mkWorld (platform w) (store w) (wsRef w) (sockets w) r (isReconnecting w)
    (timers w) (timerSeq w) (console w) (playing w) (drawn w) (clock w).

Definition set_isReconnecting (b : bool) (w : World) : World :=
  mkWorld (platform w) (store w) (wsRef w) (sockets w)
    (reconnectTimeoutRef w) b (timers w) (timerSeq w) (console w)
    (playing w) (drawn w) (clock w).

Definition set_timers (f : list (nat * Render) -> list (nat * Render))
    (w : World) : World :=
  mkWorld (platform w) (store w) (wsRef w) (sockets w)
    (reconnectTimeoutRef w) (isReconnecting w) (f (timers w)) (timerSeq w)
    (console w) (playing w) (drawn w) (clock w).

Definition set_timerSeq (n : nat) (w : World) : World :=
  mkWorld (platform w) (store w) (wsRef w) (sockets w)
    (reconnectTimeoutRef w) (isReconnecting w) (timers w) n (console w)
    (playing w) (drawn w) (clock w).

Definition set_console (f : list LogLine -> list LogLine) (w : World) : World :=
  mkWorld (platform w) (store w) (wsRef w) (sockets w)
    (reconnectTimeoutRef w) (isReconnecting w) (timers w) (timerSeq w)
    (f (console w)) (playing w) (drawn w) (clock w).

Definition set_playing (f : list string -> list string) (w : World) : World :=
  mkWorld (platform w) (store w) (wsRef w) (sockets w)
    (reconnectTimeoutRef w) (isReconnecting w) (timers w) (timerSeq w)
    (console w) (f (playing w)) (drawn w) (clock w).

Definition set_drawn (n : nat) (w : World) : World :=
  mkWorld (platform w) (store w) (wsRef w) (sockets w)
    (reconnectTimeoutRef w) (isReconnecting w) (timers w) (timerSeq w)
    (console w) (playing w) n (clock w).

(** ** Completions and the hook monad *)

Inductive Completion (A : Type) : Type :=
| Normal (a : A)
| Throw (e : Exn).
Arguments Normal {A} a.
Arguments Throw {A} e.

Definition M (A : Type) : Type := World -> Completion A * World.

Definition ret {A : Type} (a : A) : M A := fun w => (Normal a, w).

Definition bind {A B : Type} (c : M A) (k : A -> M B) : M B :=
  fun w =>
    match c w with
    | (Normal a, w') => k a w'
    | (Throw e, w') => (Throw e, w')
    end.

Definition throw {A : Type} (e : Exn) : M A := fun w => (Throw e, w).

(** [try { body } catch (e) { handler }]: what [body] did to the world
    before it threw stays done. *)
Definition try_catch {A : Type} (body : M A) (handler : Exn -> M A) : M A :=
  fun w =>
    match body w with
    | (Normal a, w') => (Normal a, w')
    | (Throw e, w') => handler e w'
    end.

Definition get : M World := fun w => (Normal w, w).
Definition modify (f : World -> World) : M unit := fun w => (Normal tt, f w).

Declare Scope hook_scope.
Delimit Scope hook_scope with hook.
Notation "x <- c ;; k" := (bind c (fun x => k))
  (at level 100, c at next level, k at level 200, right associativity)
  : hook_scope.
Notation "c ;; k" := (bind c (fun _ => k))
  (at level 100, k at level 200, right associativity) : hook_scope.
Local Open Scope hook_scope.

(** [array.forEach (f)] *)
Fixpoint forEach {A : Type} (f : A -> M unit) (l : list A) : M unit :=
  match l with
  | [] => ret tt
  | x :: l' => f x ;; forEach f l'
  end.

Definition console_log (text : string) : M unit :=
  modify (set_console (fun c => c ++ [console_log_line text])).

Definition console_error (text : string) : M unit :=
  modify (set_console (fun c => c ++ [console_error_line text])).

(** [Math.random().toString(36).substring(2, 9)], also [generateId ()]. *)
Definition generateId : M string :=
  w <- get ;;
  modify (set_drawn (S (drawn w))) ;;
  ret (random_id (platform w) (drawn w)).

Definition new_Date : M Date := w <- get ;; ret (clock w).

(** ** JavaScript coercions the hook relies on *)

(** Truthiness of a string-valued property: [undefined], [null] and the
    empty string are falsy. *)
Definition truthy (s : option string) : bool :=
  match s with
  | Some (String _ _) => true
  | _ => false
  end.

(** A string-valued property inside a template literal. *)
Definition template (s : option string) : string := default "undefined" s.

(** ** Store actions as the hook calls them *)

Definition setSessionId (id : option string) : M unit :=
  modify (set_store (AppStore.setSessionId id)).

Definition setConnected (connected : bool) : M unit :=
  modify (set_store (AppStore.setConnected connected)).

(** [setWorldState (message.state)]: the argument object of [set] reads
    [state.current_mission], a [TypeError] when [state] is [undefined]. *)
Definition setWorldState (state : option WorldState) : M unit :=
  match state with
  | Some st => modify (set_store (AppStore.setWorldState st))
  | None => throw (TypeError "state.current_mission")
  end.

Definition addTranscript (entry : TranscriptInput) : M unit :=
  id <- generateId ;;
  now <- new_Date ;;
  modify (set_store (AppStore.addTranscript entry id now)).

Definition addReasoningStep (step : ReasoningInput) : M unit :=
  id <- generateId ;;
  now <- new_Date ;;
  modify (set_store (AppStore.addReasoningStep step id now)).

Definition clearReasoningChain : M unit :=
  modify (set_store AppStore.clearReasoningChain).

Definition setLastAction (action : option ParsedAction)
    (feedback : option (list string)) : M unit :=
  modify (set_store (AppStore.setLastAction action feedback)).

Definition setNpcDialogue (dialogue : option string) : M unit :=
  modify (set_store (AppStore.setNpcDialogue dialogue)).

Definition setIsReconnecting (b : bool) : M unit :=
  modify (set_isReconnecting b).

(** ** The hook *)

Definition WS_URL (p : Platform) : string :=
  if env_DEV p then "ws://localhost:8000/ws"
  else "wss://" +:+ location_host p +:+ "/ws".

(** [wsRef.current?.readyState] *)
Definition current_readyState (w : World) : option ReadyState :=
  i ← wsRef w; readyState <$> sockets w !! i.

Definition is_open (w : World) : bool :=
  bool_decide (current_readyState w = Some OPEN).

(** A string-valued property of a JSON value as the hook reads it:
    absent ([undefined]), [null], or the string. *)
Inductive JSField : Type :=
| js_undefined
| js_null
| js_string (s : string).

(** [v] inside a template literal *)
Definition template_field (v : JSField) : string :=
  match v with
  | js_undefined => "undefined"
  | js_null => "null"
  | js_string s => s
  end.

(** [v] as the store keeps it in [sessionId], typed [string | null]; the
    hook only ever tests that field for truthiness. *)
Definition stored (v : JSField) : option string :=
  match v with
  | js_string s => Some s
  | js_undefined | js_null => None
  end.

(** The answer of the session registry to [POST /api/session].  The
    fetch rejects (no response), or a response arrives, with [ok] its
    [response.ok], which the hook never reads, and a body that is not
    JSON, that is JSON [null], or that is any other JSON value, of which
    the hook reads the property [session_id]. *)
Inductive FetchOutcome : Type :=
| FetchRejected
| JsonRejected (ok : bool)
| JsonNull (ok : bool)
| JsonBody (ok : bool) (session_id : JSField).

(** [createSession]: the [catch] is entered when [fetch] rejects, when
    [response.json ()] rejects, and when reading [data.session_id]
    throws because [data] is [null]. *)
Definition createSession (answer : FetchOutcome) : M JSField :=
  match answer with
  | JsonBody _ session_id => ret session_id
  | FetchRejected | JsonRejected _ | JsonNull _ =>
      console_error "Failed to create session:" ;;
      r <- generateId ;;
      ret (js_string ("local-" +:+ r))
  end.

(** The text contains [#]. *)
Fixpoint has_hash (s : string) : bool :=
  match s with
  | EmptyString => false
  | String c rest => Ascii.eqb c (Ascii.ascii_of_nat 35) || has_hash rest
  end.

(** [new WebSocket (`${WS_URL}/${sid}`)].  The URL always parses: what
    follows the path prefix is percent-encoded as needed.  The
    constructor throws a [SyntaxError] exactly when the URL has a
    fragment, that is when [sid] contains [#] (the host name has none).
    The handlers the socket is given close over [r]. *)
Definition new_WebSocket (base sid : string) (r : Render) : M nat :=
  w <- get ;;
  if has_hash sid then throw SyntaxError
  else
    modify (set_sockets
              (fun l => l ++ [mkWebSocket (base +:+ "/" +:+ sid) CONNECTING r []])) ;;
    ret (length (sockets w)).

(** [connect], as created in render [r].  [answer] is what the registry
    replies if this call asks it for a session; the call is modelled
    without interleaving at its [await].  A throw is a rejection of the
    promise [connect] returns. *)
Definition connect (r : Render) (answer : FetchOutcome) : M unit :=
  w <- get ;;
  if is_open w then ret tt
  else
    sid <- (if truthy (r_sessionId r)
            then ret (js_string (template (r_sessionId r)))
            else (sid <- createSession answer ;;
                  setSessionId (stored sid) ;;
                  ret sid)) ;;
    console_log ("[WS] Connecting to " +:+ WS_URL (platform w) +:+ "/"
                   +:+ template_field sid) ;;
    ws <- new_WebSocket (WS_URL (platform w)) (template_field sid) r ;;
    modify (set_wsRef (Some ws)).

(** The [try] block of [createSession] throws on this answer. *)
Definition enters_catch (answer : FetchOutcome) : bool :=
  match answer with
  | JsonBody _ _ => false
  | FetchRejected | JsonRejected _ | JsonNull _ => true
  end.


(** The world after a [connect] of render [r] that fell back to a local
    session identifier. *)
Definition with_local_socket (r : Render) (w : World) : World :=
  let sid := "local-" +:+ random_id (platform w) (drawn w) in
  set_wsRef (Some (length (sockets w)))
    (set_sockets
       (fun l => l ++ [mkWebSocket (WS_URL (platform w) +:+ "/" +:+ sid)
                         CONNECTING r []])
       (set_console
          (fun c => c ++ [console_log_line
                            ("[WS] Connecting to " +:+ WS_URL (platform w)
                               +:+ "/" +:+ sid)])
          (set_store (AppStore.setSessionId (Some sid))
             (set_drawn (S (drawn w))
                (set_console
                   (fun c => c ++ [console_error_line
                                     "Failed to create session:"])
                   w))))).

Definition ws_onopen : M unit :=
  console_log "[WS] Connected" ;;
  setConnected true ;;
  setIsReconnecting false.

(** [window.setTimeout (() => { ...; connect () }, 3000)] inside a handler
    created in render [r]: timer identifiers are positive. *)
Definition setTimeout_reconnect (r : Render) : M nat :=
  w <- get ;;
  modify (set_timerSeq (S (timerSeq w))) ;;
  modify (set_timers (fun t => t ++ [(S (timerSeq w), r)])) ;;
  ret (S (timerSeq w)).

(** [ws.onclose] of a socket built by the [connect] of render [r]: the
    guard reads [isReconnecting] as bound in that render. *)
Definition ws_onclose (r : Render) : M unit :=
  console_log "[WS] Disconnected" ;;
  setConnected false ;;
  if negb (r_isReconnecting r) then
    setIsReconnecting true ;;
    id <- setTimeout_reconnect r ;;
    modify (set_reconnectTimeoutRef (Some id))
  else ret tt.

(** [atob], [new Audio (url)] and [audio.play ()]; a rejected [play ()] is
    handled in the promise's own [catch]. *)
Definition play_npc_audio (audio_data : string) (mood : option string) : M unit :=
  w <- get ;;
  if atob_ok (platform w) audio_data then
    modify (set_playing (fun l => l ++ [audio_data])) ;;
    console_log ("[Audio] Playing NPC voice (" +:+ template mood +:+ ")")
  else throw InvalidCharacterError.

Definition tag_is (message : ServerMessage) (tag : string) : bool :=
  bool_decide (msg_type message = Some tag).

(** The tags that [handleMessage] has a [case] for. *)
Definition recognized_tags : list string :=
  ["world_state"; "transcript"; "action_result"; "reasoning"; "npc_audio";
   "error"; "pong"].

Definition recognized (message : ServerMessage) : bool :=
  existsb (tag_is message) recognized_tags.

(** The line [handleMessage] logs on entry. *)
Definition received_line (message : ServerMessage) : LogLine :=
  console_log_line ("[WS] Received: " +:+ template (msg_type message)).

(** [handleMessage]: a [switch] on [message.type] whose cases all end in
    [break] and which has no [default]. *)
Definition handleMessage (message : ServerMessage) : M unit :=
  console_log ("[WS] Received: " +:+ template (msg_type message)) ;;
  if tag_is message "world_state" then
    setWorldState (msg_state message)
  else if tag_is message "transcript" then
    if truthy (msg_text message) then
      addTranscript {| ti_type := player_entry;
                       ti_text := template (msg_text message) |}
    else ret tt
  else if tag_is message "action_result" then
    setLastAction (msg_parsed_action message) (msg_feedback message) ;;
    (if truthy (msg_world_diff message ≫= npc_dialogue) then
       setNpcDialogue (msg_world_diff message ≫= npc_dialogue) ;;
       addTranscript
         {| ti_type := npc_entry;
            ti_text := template (msg_world_diff message ≫= npc_dialogue) |}
     else ret tt) ;;
    (if truthy (msg_world_diff message ≫= world_event) then
       addTranscript
         {| ti_type := system_entry;
            ti_text := template (msg_world_diff message ≫= world_event) |}
     else ret tt) ;;
    match msg_feedback message with
    | Some feedback =>
        forEach (fun fb => addTranscript {| ti_type := feedback_entry;
                                            ti_text := fb |}) feedback
    | None => throw (TypeError "message.feedback.forEach")
    end
  else if tag_is message "reasoning" then
    addReasoningStep {| ri_agent := msg_agent message;
                        ri_step := msg_step message;
                        ri_details := msg_details message |}
  else if tag_is message "npc_audio" then
    if truthy (msg_audio_data message) then
      try_catch
        (play_npc_audio (template (msg_audio_data message)) (msg_mood message))
        (fun _ => console_error "[Audio] Failed to play NPC audio:")
    else ret tt
  else if tag_is message "error" then
    console_error ("[WS] Server error: " +:+ template (msg_message message)) ;;
    addTranscript {| ti_type := system_entry;
                     ti_text := "Error: " +:+ template (msg_message message) |}
  else if tag_is message "pong" then
    ret tt
  else ret tt.

(** [ws.onmessage]: [JSON.parse (event.data)] and [handleMessage] under
    one [try]; reading [message.type] of [null] is a [TypeError]. *)
Definition ws_onmessage (data : string) : M unit :=
  try_catch
    (w <- get ;;
     match JSON_parse (platform w) data with
     | None => throw SyntaxError
     | Some None => throw (TypeError "message.type")
     | Some (Some message) => handleMessage message
     end)
    (fun _ => console_error "[WS] Failed to parse message:").

Definition ws_onerror : M unit := console_error "[WS] Error:".

(** [ws.send (data)]: throws while the socket is connecting, transmits
    when it is open, and discards the data once it is closing or closed. *)
Definition ws_send (i : nat) (data : ClientMessage) : M unit :=
  w <- get ;;
  match sockets w !! i with
  | Some s =>
      match readyState s with
      | CONNECTING => throw InvalidStateError
      | OPEN =>
          modify (set_sockets
                    <[i := mkWebSocket (url s) OPEN (owner s) (sent s ++ [data])]>)
      | CLOSING | CLOSED => ret tt
      end
  | None => throw (TypeError "wsRef.current.send")
  end.

Definition sendTranscript (text : string) (isFinal : bool) : M unit :=
  w <- get ;;
  if negb (is_open w) then
    console_error "[WS] Not connected"
  else
    (if isFinal then clearReasoningChain else ret tt) ;;
    match wsRef w with
    | Some i => ws_send i (TranscriptOut text isFinal)
    | None => throw (TypeError "wsRef.current.send")
    end.

Definition sendPing : M unit :=
  w <- get ;;
  if is_open w then
    match wsRef w with
    | Some i => ws_send i PingOut
    | None => throw (TypeError "wsRef.current.send")
    end
  else ret tt.

(** [ws.close ()] starts the closing handshake; the close event follows. *)
Definition ws_close (i : nat) : M unit :=
  w <- get ;;
  match sockets w !! i with
  | Some s =>
      match readyState s with
      | CONNECTING | OPEN =>
          modify (set_sockets
                    <[i := mkWebSocket (url s) CLOSING (owner s) (sent s)]>)
      | CLOSING | CLOSED => ret tt
      end
  | None => ret tt
  end.

Definition clearTimeout (id : nat) : M unit :=
  modify (set_timers (filter (fun t => t.1 ≠ id))).

Definition disconnect : M unit :=
  w <- get ;;
  match reconnectTimeoutRef w with
  | Some (S _ as id) => clearTimeout id
  | _ => ret tt
  end ;;
  match wsRef w with
  | Some i => ws_close i ;; modify (set_wsRef None)
  | None => ret tt
  end ;;
  setConnected false.

(** ** Renders and platform events *)

(** The bindings a render of the component takes. *)
Definition render (w : World) : Render :=
  {| r_sessionId := sessionId (store w);
     r_isReconnecting := isReconnecting w |}.

(** The socket at index [i] finishes its handshake. *)
Definition socket_opened (i : nat) : M unit :=
  w <- get ;;
  match sockets w !! i with
  | Some s =>
      if decide (readyState s = CONNECTING) then
        modify (set_sockets
                  <[i := mkWebSocket (url s) OPEN (owner s) (sent s)]>) ;;
        ws_onopen
      else ret tt
  | None => ret tt
  end.

(** The socket at index [i] is closed; a socket fires [close] once. *)
Definition socket_closed (i : nat) : M unit :=
  w <- get ;;
  match sockets w !! i with
  | Some s =>
      if decide (readyState s = CLOSED) then ret tt
      else
        modify (set_sockets
                  <[i := mkWebSocket (url s) CLOSED (owner s) (sent s)]>) ;;
        ws_onclose (owner s)
  | None => ret tt
  end.

(** A frame arrives on the open socket at index [i]. *)
Definition socket_message (i : nat) (data : string) : M unit :=
  w <- get ;;
  match sockets w !! i with
  | Some s =>
      if decide (readyState s = OPEN) then ws_onmessage data else ret tt
  | None => ret tt
  end.

(** The pending timer [id] fires: its callback calls the [connect] of the
    render that scheduled it. *)
Definition timer_fired (id : nat) (answer : FetchOutcome) : M unit :=
  w <- get ;;
  match list_find (fun t => t.1 = id) (timers w) with
  | Some (_, (_, r)) =>
      clearTimeout id ;;
      console_log "[WS] Attempting reconnect..." ;;
      connect r answer
  | None => ret tt
  end.

(** The state in which the component mounts. *)
Definition initial_world (p : Platform) : World :=
  mkWorld p AppStore.initial None [] None false [] 0 [] [] 0 0.

End UseWebSocket.

(* ===================================================================== *)
(** * hooks/useAudioStream.ts *)
(* ===================================================================== *)

Module UseAudioStream.

Definition TARGET_SAMPLE_RATE : Z := 16000.

(** ** Sample arithmetic

    A sample read from the [Float32Array] is a binary32 value widened to
    a JavaScript number.  The finite ones are modelled by the rational
    they denote: [Math.min] and [Math.max] are exact, and so are the two
    products, since a 24-bit significand times [0x8000] or [0x7FFF] fits
    the 53-bit significand of a binary64.  The two zeros coincide (neither
    is [< 0], and both convert to [0]). *)
Inductive Float : Type :=
| NaN
| PosInf
| NegInf
| Finite (q : Q).

Definition Math_min (a b : Float) : Float :=
  match a, b with
  | NaN, _ | _, NaN => NaN
  | NegInf, _ | _, NegInf => NegInf
  | PosInf, x | x, PosInf => x
  | Finite p, Finite q => if Qle_bool p q then Finite p else Finite q
  end.

Definition Math_max (a b : Float) : Float :=
  match a, b with
  | NaN, _ | _, NaN => NaN
  | PosInf, _ | _, PosInf => PosInf
  | NegInf, x | x, NegInf => x
  | Finite p, Finite q => if Qle_bool p q then Finite q else Finite p
  end.

(** [s < 0] *)
Definition lt_zero (s : Float) : bool :=
  match s with
  | NaN | PosInf => false
  | NegInf => true
  | Finite q => negb (Qle_bool 0 q)
  end.

(** [s * k] for a positive integer constant [k] *)
Definition times (s : Float) (k : Z) : Float :=
  match s with
  | Finite q => Finite (q * inject_Z k)
  | other => other
  end.

(** Truncation toward zero. *)
Definition truncate (q : Q) : Z := Z.quot (Qnum q) (Zpos (Qden q)).

(** [ToInt16], the conversion a store into an [Int16Array] applies:
    not-a-number and the infinities become 0, other values are truncated,
    reduced modulo 2^16 and read as a signed 16-bit integer. *)
Definition ToInt16 (x : Float) : Z :=
  match x with
  | Finite q =>
      let int16bit := (truncate q mod 65536)%Z in
      if (32768 <=? int16bit)%Z then (int16bit - 65536)%Z else int16bit
  | _ => 0%Z
  end.

(** [Math.max (-1, Math.min (1, x))] *)
Definition clamp (x : Float) : Float :=
  Math_max (Finite (inject_Z (-1))) (Math_min (Finite (inject_Z 1)) x).

(** [s < 0 ? s * 0x8000 : s * 0x7FFF] *)
Definition scale (s : Float) : Float :=
  if lt_zero s then times s 32768 else times s 32767.

(** The body of the conversion loop: [pcmData[i]] from [inputData[i]]. *)
Definition float32_to_int16 (x : Float) : Z := ToInt16 (scale (clamp x)).

(** [processor.onaudioprocess]: the frame handed to [onData]. *)
Definition onaudioprocess (inputData : list Float) : list Z :=
  map float32_to_int16 inputData.

(** ** Capture resources *)

Record MediaStream : Type := { getTracks : list nat }.

(** Calls the hook makes on the audio objects it holds. *)
Inductive AudioCall : Type :=
| node_connect (node : nat)
| node_disconnect (node : nat)
| context_close (ctx : nat)
| track_stop (track : nat).

Record Hook : Type := mkHook {
  isRecording : bool;
  audioContextRef : option nat;
  processorRef : option nat;
  streamRef : option MediaStream;
  calls : list AudioCall;                  (* oldest first *)
  console : list string;
}.

(** [startRecording].  [mic] is what [getUserMedia] resolves to, [ctx]
    the context [new AudioContext] builds and [node] the processor it
    creates; [None] is a rejection or a throw, caught and logged by the
    single [catch] of the function. *)
Definition startRecording (mic : option MediaStream) (ctx node : option nat)
    (h : Hook) : Hook :=
  let failed (h' : Hook) :=
    mkHook (isRecording h') (audioContextRef h') (processorRef h')
      (streamRef h') (calls h')
      (console h' ++ ["Error accessing microphone:"]) in
  match mic with
  | None => failed h
  | Some stream =>
      let h1 := mkHook (isRecording h) (audioContextRef h) (processorRef h)
                  (Some stream) (calls h) (console h) in
      match ctx with
      | None => failed h1
      | Some audioContext =>
          let h2 := mkHook (isRecording h1) (Some audioContext)
                      (processorRef h1) (streamRef h1) (calls h1) (console h1) in
          match node with
          | None => failed h2
          | Some processor =>
              mkHook true (audioContextRef h2) (Some processor) (streamRef h2)
                (calls h2 ++ [node_connect processor]) (console h2)
          end
      end
  end.

(** [stopRecording]: three guarded releases, then [setIsRecording (false)].
    [disconnect ()], [close ()] and [stop ()] do not throw. *)
Definition stopRecording (h : Hook) : Hook :=
  let h1 :=
    match processorRef h with
    | Some processor =>
        mkHook (isRecording h) (audioContextRef h) None (streamRef h)
          (calls h ++ [node_disconnect processor]) (console h)
    | None => h
    end in
  let h2 :=
    match audioContextRef h1 with
    | Some audioContext =>
        mkHook (isRecording h1) None (processorRef h1) (streamRef h1)
          (calls h1 ++ [context_close audioContext]) (console h1)
    | None => h1
    end in
  let h3 :=
    match streamRef h2 with
    | Some stream =>
        mkHook (isRecording h2) (audioContextRef h2) (processorRef h2) None
          (calls h2 ++ map track_stop (getTracks stream)) (console h2)
    | None => h2
    end in
  mkHook false (audioContextRef h3) (processorRef h3) (streamRef h3)
    (calls h3) (console h3).

End UseAudioStream.

(* ===================================================================== *)
(** * Concrete scenarios *)
(* ===================================================================== *)

Module Scenarios.
Import Types AppStore UseWebSocket.
Local Open Scope hook_scope.

Definition hello : TranscriptInput :=
  {| ti_type := player_entry; ti_text := "hello" |}.

Definition thinking : ReasoningInput :=
  {| ri_agent := Some "interpreter"; ri_step := Some "parse";
     ri_details := Some [] |}.

(** [n] calls of [addTranscript], the k-th made at time [k]. *)
Definition numbered_adds (n : nat) : list LogCall :=
  map (fun k => CallAddTranscript hello "id" (Z.of_nat k)) (seq 0 n).

(** A platform whose parser accepts the one-word frames [pong] and [null]
    and rejects every other text. *)
Definition stub_platform : Platform := {|
  JSON_parse := fun data =>
    if decide (data = "pong") then Some (Some (TaggedMessage "pong"))
    else if decide (data = "null") then Some None
    else None;
  atob_ok := fun _ => true;
  random36 := fun k =>
    match k with
    | 0 => [20; 3; 33; 9; 10; 1; 11]       (* k3x9a1b *)
    | _ => [26; 7; 32; 2; 14; 5; 27]       (* q7w2e5r *)
    end;
  env_DEV := true;
  location_host := "localhost:5173";
|}.

(** The component mounts and [connect] of the first render runs twice:
    once from the hook's own mount effect and once from the effect of
    [App], which calls the [connect] it got from the hook.  The registry
    is unreachable; both sockets are then closed. *)
Definition two_sockets_close : M unit :=
  w <- get ;;
  connect (render w) FetchRejected ;;
  connect (render w) FetchRejected ;;
  socket_closed 0 ;;
  socket_closed 1.

(** The same mount, up to the close of the first socket. *)
Definition first_socket_closes : M unit :=
  w <- get ;;
  connect (render w) FetchRejected ;;
  connect (render w) FetchRejected ;;
  socket_closed 0.

(** A world whose current socket is open. *)
Definition connected_world : World :=
  snd ((w <- get ;; connect (render w) (JsonBody true (js_string "s1")) ;;
        socket_opened 0) (initial_world stub_platform)).

(** Capture that failed after the microphone was granted: the stream is
    held, the context and the processor are not. *)
Definition half_started : UseAudioStream.Hook :=
  UseAudioStream.startRecording
    (Some {| UseAudioStream.getTracks := [7; 8] |}) None None
    (UseAudioStream.mkHook false None None None [] []).

End Scenarios.

(* ===================================================================== *)
(** * The bounded logs as sequences *)
(* ===================================================================== *)

Module LogEntries.
Import Types AppStore.

(** The entry a call of [addTranscript] appends. *)
Definition transcript_entry_of (c : LogCall) : list TranscriptEntry :=
  match c with
  | CallAddTranscript e id now =>
      [ {| te_id := id; te_type := ti_type e; te_text := ti_text e;
           te_timestamp := now |} ]
  | CallAddReasoningStep _ _ _ => []
  end.

(** The step a call of [addReasoningStep] appends. *)
Definition reasoning_step_of (c : LogCall) : list ReasoningStep :=
  match c with
  | CallAddTranscript _ _ _ => []
  | CallAddReasoningStep st id now =>
      [ {| rs_id := id; rs_agent := ri_agent st; rs_step := ri_step st;
           rs_details := ri_details st; rs_timestamp := now |} ]
  end.

Definition transcript_entries (cs : list LogCall) : list TranscriptEntry :=
  flat_map transcript_entry_of cs.

Definition reasoning_steps (cs : list LogCall) : list ReasoningStep :=
  flat_map reasoning_step_of cs.

End LogEntries.

(* ===================================================================== *)
(** * The hook under the events of a session *)
(* ===================================================================== *)

Module HookEvents.
Import Types AppStore UseWebSocket.
Local Open Scope hook_scope.

(** What can happen to a mounted hook: the component or a consumer calls
    one of the functions the hook returns, with the bindings of some
    render, or the browser delivers a socket or timer event. *)
Inductive Event : Type :=
| call_connect (r : Render) (answer : FetchOutcome)
| call_disconnect
| call_sendTranscript (text : string) (isFinal : bool)
| heartbeat                                  (* setInterval (sendPing, 30000) *)
| open_event (socket : nat)
| closing_event (socket : nat)
| close_event (socket : nat)
| message_event (socket : nat) (data : string)
| error_event
| timeout_event (timer : nat) (answer : FetchOutcome).

(** The server starts the closing handshake on the open socket at index
    [i]: the socket is closing from then on; its [close] event, and with
    it [onclose], comes later. *)
Definition socket_closing (i : nat) : M unit :=
  w <- get ;;
  match sockets w !! i with
  | Some s =>
      if decide (readyState s = OPEN) then
        modify (set_sockets
                  <[i := mkWebSocket (url s) CLOSING (owner s) (sent s)]>)
      else ret tt
  | None => ret tt
  end.

Definition dispatch (e : Event) : M unit :=
  match e with
  | call_connect r answer => connect r answer
  | call_disconnect => disconnect
  | call_sendTranscript text isFinal => sendTranscript text isFinal
  | heartbeat => sendPing
  | open_event i => socket_opened i
  | closing_event i => socket_closing i
  | close_event i => socket_closed i
  | message_event i data => socket_message i data
  | error_event => ws_onerror
  | timeout_event id answer => timer_fired id answer
  end.

(** One turn of the event loop per event; an exception that escapes a
    handler ends that turn only. *)
Definition run_events (es : list Event) (w : World) : World :=
  fold_left (fun w e => snd (dispatch e w)) es w.

(** [c] keeps [Q]: from a world in [Q] it ends in a world in [Q], whether
    it returns or throws. *)
Definition keeps {A : Type} (Q : World -> Prop) (c : M A) : Prop :=
  forall w, Q w -> Q (snd (c w)).

(** [c] completes normally from every world. *)
Definition returns {A : Type} (c : M A) : Prop :=
  forall w, exists a, fst (c w) = Normal a.

(** Some socket of the hook has opened and has not had its [close]
    event yet: it is open or closing. *)
Definition some_socket_live (w : World) : Prop :=
  exists i s, sockets w !! i = Some s
              /\ (readyState s = OPEN \/ readyState s = CLOSING).

(** The part of the world that belongs to the connection rather than to
    the projected view. *)
Definition transport (w : World)
  : list WebSocket * option nat * list (nat * Render) * nat * option nat
    * bool * option string * bool :=
  (sockets w, wsRef w, timers w, timerSeq w, reconnectTimeoutRef w,
   isReconnecting w, sessionId (store w), isConnected (store w)).

(** The store says connected only while some socket is live. *)
Definition session_ok (w : World) : Prop :=
  isConnected (store w) = true -> some_socket_live w.

(** The transcript log as the panel shows it: the type and the text of
    each entry, oldest first. *)
Definition lines (w : World) : list (EntryType * string) :=
  map (fun e => (te_type e, te_text e)) (transcripts (store w)).

(** A log extended by new lines under the cap that [addTranscript]
    enforces. *)
Definition extended (old new : list (EntryType * string))
  : list (EntryType * string) :=
  match new with
  | [] => old
  | _ => slice_last 51 (old ++ new)
  end.

(** [c] completes normally and extends the log by [new]. *)
Definition appends {A : Type} (new : list (EntryType * string)) (c : M A)
  : Prop :=
  forall w, (exists a, fst (c w) = Normal a)
            /\ lines (snd (c w)) = extended (lines w) new.

(** [c] throws [e], having extended the log by [new]. *)
Definition throws_after {A : Type} (e : Exn) (new : list (EntryType * string))
    (c : M A) : Prop :=
  forall w, fst (c w) = Throw e
            /\ lines (snd (c w)) = extended (lines w) new.

(** The lines an [action_result] message contributes, in the order the
    handler adds them: the NPC's dialogue, the world event, then each
    feedback line. *)
Definition action_lines (m : ServerMessage) : list (EntryType * string) :=
  (if truthy (msg_world_diff m ≫= npc_dialogue)
   then [(npc_entry, template (msg_world_diff m ≫= npc_dialogue))] else [])
  ++ (if truthy (msg_world_diff m ≫= world_event)
      then [(system_entry, template (msg_world_diff m ≫= world_event))]
      else [])
  ++ map (fun fb => (feedback_entry, fb)) (default [] (msg_feedback m)).

Definition logs_bounded (w : World) : Prop :=
  length (transcripts (store w)) <= 51
  /\ length (reasoningChain (store w)) <= 21.

End HookEvents.

(* ===================================================================== *)
(** * hooks/useSpeechRecognition.ts *)
(* ===================================================================== *)

Module UseSpeechRecognition.

(** A recognition result, with the transcript of its first alternative
    ([result[0].transcript]; a result has at least one alternative). *)
Record SpeechRecognitionResult : Type := {
  isFinal : bool;
  transcript : string;
}.

Record SpeechRecognitionEvent : Type := {
  results : list SpeechRecognitionResult;
  resultIndex : nat;
}.

(** The recognition object: [start ()] throws unless it is idle, and it
    stays started from [stop ()] or [abort ()] until its [end] event. *)
Inductive Recognition : Type := idle | listening | stopping.

Record Hook : Type := mkHook {
  recognitionRef : option Recognition;     (* null until the effect ran *)
  isSupported : bool;
  interimTranscript : string;
  isRecording : bool;                      (* the store's flag *)
  heard : list (string * bool);            (* calls of onTranscript *)
  console : list string;
}.

Definition nonempty (s : string) : bool :=
  match s with
  | "" => false
  | _ => true
  end.

(** The loop of [onresult]: [interim] and [final] grow by the transcript
    of each result, in order. *)
Fixpoint accumulate (rs : list SpeechRecognitionResult)
    (interim final : string) : string * string :=
  match rs with
  | [] => (interim, final)
  | result :: rest =>
      if isFinal result then accumulate rest interim (final +:+ transcript result)
      else accumulate rest (interim +:+ transcript result) final
  end.

(** [recognition.onresult]; [trim] is [String.prototype.trim]. *)
Definition onresult (trim : string -> string) (event : SpeechRecognitionEvent)
    (h : Hook) : Hook :=
  let '(interim, final) :=
    accumulate (drop (resultIndex event) (results event)) "" "" in
  let h1 :=
    if nonempty interim then
      mkHook (recognitionRef h) (isSupported h) interim (isRecording h)
        (heard h) (console h)
    else h in
  if nonempty final then
    mkHook (recognitionRef h1) (isSupported h1) "" (isRecording h1)
      (heard h1 ++ [(trim final, true)]) (console h1)
  else h1.

(** [recognition.onerror] *)
Definition onerror (h : Hook) : Hook :=
  mkHook (recognitionRef h) (isSupported h) (interimTranscript h) false
    (heard h) (console h ++ ["Speech recognition error:"]).

(** [recognition.start ()] inside a [try]: [None] when it throws. *)
Definition start (r : Recognition) : option Recognition :=
  match r with
  | idle => Some listening
  | listening | stopping => None
  end.

(** [recognition.stop ()] *)
Definition stop (r : Recognition) : Recognition :=
  match r with
  | listening => stopping
  | other => other
  end.

(** The [end] event: the object is idle again, then [onend] restarts it
    when the store still says recording. *)
Definition end_event (h : Hook) : Hook :=
  match recognitionRef h with
  | None => h
  | Some _ =>
      if isRecording h then
        mkHook (Some listening) (isSupported h) (interimTranscript h)
          (isRecording h) (heard h) (console h)
      else
        mkHook (Some idle) (isSupported h) (interimTranscript h)
          (isRecording h) (heard h) (console h)
  end.

Definition startRecording (h : Hook) : Hook :=
  match recognitionRef h with
  | Some r =>
      if isSupported h then
        match start r with
        | Some r' =>
            mkHook (Some r') (isSupported h) "" true (heard h) (console h)
        | None =>
            mkHook (recognitionRef h) (isSupported h) (interimTranscript h)
              (isRecording h) (heard h)
              (console h ++ ["Failed to start recording:"])
        end
      else
        mkHook (recognitionRef h) (isSupported h) (interimTranscript h)
          (isRecording h) (heard h)
          (console h ++ ["Speech recognition not available"])
  | None =>
      mkHook (recognitionRef h) (isSupported h) (interimTranscript h)
        (isRecording h) (heard h)
        (console h ++ ["Speech recognition not available"])
  end.

Definition stopRecording (h : Hook) : Hook :=
  mkHook (stop <$> recognitionRef h) (isSupported h) "" false (heard h)
    (console h).

Definition toggleRecording (h : Hook) : Hook :=
  if isRecording h then stopRecording h else startRecording h.

(** The transcripts of the results selected by [keep], concatenated. *)
Definition spoken (keep : SpeechRecognitionResult -> bool)
    (rs : list SpeechRecognitionResult) : string :=
  String.concat "" (map transcript (List.filter keep rs)).

End UseSpeechRecognition.

(* ===================================================================== *)
(** * components/UI.tsx: the two input handlers *)
(* ===================================================================== *)

Module Components.
Import Types AppStore UseWebSocket.
Local Open Scope hook_scope.

(** The world after [addTranscript] of a player line: the entry takes the
    next random identifier and the current time. *)
Definition with_player_line (text : string) (w : World) : World :=
  set_store
    (AppStore.addTranscript {| ti_type := player_entry; ti_text := text |}
       (random_id (platform w) (drawn w)) (clock w))
    (set_drawn (S (drawn w)) w).

(** [TextInput.handleSubmit].  [text] and [isConnected] are the bindings
    of the render, [trim] is [String.prototype.trim]; the result is the
    value the input's [text] state has afterwards.  The world is the one
    of the hook instance the component created, over the shared store. *)
Definition handleSubmit (trim : string -> string) (text : string)
    (isConnected : bool) : M string :=
  if truthy (Some (trim text)) && isConnected then
    addTranscript {| ti_type := player_entry; ti_text := trim text |} ;;
    sendTranscript (trim text) true ;;
    ret ""
  else ret text.

(** [MicrophoneButton.handleTranscript], the [onTranscript] callback of
    the speech recognition hook. *)
Definition handleTranscript (trim : string -> string) (text : string)
    (isFinal : bool) : M unit :=
  if isFinal && truthy (Some (trim text)) then
    addTranscript {| ti_type := player_entry; ti_text := trim text |} ;;
    sendTranscript (trim text) true
  else ret tt.

End Components.

(* ===================================================================== *)
(** * hooks/useSimulationSocket.ts *)
(* ===================================================================== *)

Module UseSimulationSocket.
Import Types.

(** A JavaScript value as this hook sees it: [None] is [undefined]. *)
Definition JSValue : Type := option JSON.

(** What the hook sends: binary PCM frames and JSON text. *)
Inductive Frame : Type :=
| binary_frame (samples : list Z)
| text_frame (json : JSON).

Record Socket : Type := mkSocket {
  readyState : UseWebSocket.ReadyState;
  sent : list Frame;
}.

Record Hook : Type := mkHook {
  ws : option Socket;                      (* ws.current *)
  isConnected : bool;
  worldState : JSValue;
  feedback : JSValue;
  lastTranscript : JSValue;
  console : list string;
}.

(** The state of the hook before its effect has run. *)
Definition initial : Hook :=
  mkHook None false (Some JNull) (Some JNull) (Some JNull) [].

(** [data.key] on a value that is not [null]: objects hold each key once;
    the keys read here are no properties of strings, numbers, booleans
    or arrays. *)
Definition prop (data : JSON) (key : string) : JSValue :=
  match data with
  | JObject fields => snd <$> List.find (fun f => bool_decide (f.1 = key)) fields
  | _ => None
  end.

Definition truthy (v : JSValue) : bool :=
  match v with
  | None | Some JNull => false
  | Some (JBool b) => b
  | Some (JNumber n) => negb (Qeq_bool n 0)
  | Some (JString s) => match s with "" => false | _ => true end
  | Some (JArray _) | Some (JObject _) => true
  end.

(** [v === tag] for a string literal [tag] *)
Definition is_string (v : JSValue) (tag : string) : bool :=
  match v with
  | Some (JString s) => bool_decide (s = tag)
  | _ => false
  end.

Definition log (line : string) (h : Hook) : Hook :=
  mkHook (ws h) (isConnected h) (worldState h) (feedback h) (lastTranscript h)
    (console h ++ [line]).

Definition setWorldState (v : JSValue) (h : Hook) : Hook :=
  mkHook (ws h) (isConnected h) v (feedback h) (lastTranscript h) (console h).

Definition setFeedback (v : JSValue) (h : Hook) : Hook :=
  mkHook (ws h) (isConnected h) (worldState h) v (lastTranscript h) (console h).

Definition setIsConnected (b : bool) (h : Hook) : Hook :=
  mkHook (ws h) b (worldState h) (feedback h) (lastTranscript h) (console h).

(** [socket.onmessage].  [parse] is [JSON.parse], [None] when it throws;
    reading [data.type] of [null] throws into the same [catch]. *)
Definition onmessage (parse : string -> option JSON) (data : string)
    (h : Hook) : Hook :=
  match parse data with
  | None | Some JNull => log "Failed to parse message:" h
  | Some d =>
      if is_string (prop d "type") "world_update" then
        let h1 := setWorldState (prop d "state") h in
        if truthy (prop d "feedback") then setFeedback (prop d "feedback") h1
        else h1
      else if is_string (prop d "type") "agent_message" then
        setFeedback (prop d "text") h
      else if is_string (prop d "type") "error" then
        log "Server Error:" h
      else h
  end.

(** [ws.current.send (frame)] under the guard
    [ws.current && ws.current.readyState === WebSocket.OPEN]. *)
Definition send_if_open (frame : Frame) (h : Hook) : Hook :=
  match ws h with
  | Some s =>
      match readyState s with
      | UseWebSocket.OPEN =>
          mkHook (Some (mkSocket UseWebSocket.OPEN (sent s ++ [frame])))
            (isConnected h) (worldState h) (feedback h) (lastTranscript h)
            (console h)
      | _ => h
      end
  | None => h
  end.

Definition sendAudio (data : list Z) : Hook -> Hook :=
  send_if_open (binary_frame data).

Definition sendMessage (text : string) : Hook -> Hook :=
  send_if_open (text_frame (JObject [("text", JString text)])).

Definition sendJSON (payload : JSON) : Hook -> Hook :=
  send_if_open (text_frame payload).

(** The effect: a new socket, and its [onopen] and [onclose]. *)
Definition mount (h : Hook) : Hook :=
  mkHook (Some (mkSocket UseWebSocket.CONNECTING [])) (isConnected h)
    (worldState h) (feedback h) (lastTranscript h) (console h).

Definition onopen (h : Hook) : Hook :=
  mkHook (mkSocket UseWebSocket.OPEN <$> (sent <$> ws h)) true (worldState h)
    (feedback h) (lastTranscript h)
    (console h ++ ["Connected to Simulation Server"]).

Definition onclose (h : Hook) : Hook :=
  mkHook (mkSocket UseWebSocket.CLOSED <$> (sent <$> ws h)) false (worldState h)
    (feedback h) (lastTranscript h)
    (console h ++ ["Disconnected from Simulation Server"]).

End UseSimulationSocket.

(* ===================================================================== *)
(** * App.tsx of the push-to-talk client *)
(* ===================================================================== *)

Module PushToTalk.
Import Types.

(** The two hooks the component holds. *)
Definition App : Type := UseAudioStream.Hook * UseSimulationSocket.Hook.

(** [{ type: "commit" }] *)
Definition commit : JSON := JObject [("type", JString "commit")].

(** [handleKeyDown]: [code] and [repeat] are [e.code] and [e.repeat];
    [mic], [ctx] and [node] are what the browser answers to the capture
    this key press may start. *)
Definition handleKeyDown (code : string) (repeat : bool)
    (mic : option UseAudioStream.MediaStream) (ctx node : option nat)
    (app : App) : App :=
  if bool_decide (code = "Space")
     && negb (UseAudioStream.isRecording app.1) && negb repeat
  then (UseAudioStream.startRecording mic ctx node app.1, app.2)
  else app.

(** [handleKeyUp] *)
Definition handleKeyUp (code : string) (app : App) : App :=
  if bool_decide (code = "Space") && UseAudioStream.isRecording app.1
  then (UseAudioStream.stopRecording app.1,
        UseSimulationSocket.sendJSON commit app.2)
  else app.

(** One audio buffer while capturing: [onaudioprocess] converts it and
    hands the frame to [sendAudio]. *)
Definition audio_buffer (inputData : list UseAudioStream.Float) (app : App) : App :=
  (app.1,
   UseSimulationSocket.sendAudio (UseAudioStream.onaudioprocess inputData) app.2).

End PushToTalk.

(* ===================================================================== *)
(** * Further scenarios *)
(* ===================================================================== *)

Module MoreScenarios.
Import Types AppStore UseWebSocket HookEvents Scenarios.
Local Open Scope hook_scope.

(** A render made once the store holds the session [s1]. *)
Definition render_with_session : Render :=
  {| r_sessionId := Some "s1"; r_isReconnecting := false |}.

(** The session of [connected_world] after its socket has closed: one
    reconnect timer is pending, scheduled by the first render. *)
Definition closed_world : World :=
  run_events [close_event 0] connected_world.

(** A platform on which every audio payload fails to decode. *)
Definition mute_platform : Platform := {|
  JSON_parse := JSON_parse stub_platform;
  atob_ok := fun _ => false;
  random36 := random36 stub_platform;
  env_DEV := true;
  location_host := "localhost:5173";
|}.

(** [{ type: 'npc_audio', audio_data: '%%', mood: 'angry' }] *)
Definition garbled_audio : ServerMessage := {|
  msg_type := Some "npc_audio"; msg_text := None; msg_is_final := None;
  msg_parsed_action := None; msg_validation_passed := None;
  msg_feedback := None; msg_world_diff := None; msg_state := None;
  msg_agent := None; msg_step := None; msg_details := None;
  msg_message := None; msg_recoverable := None;
  msg_audio_data := Some "%%"; msg_npc_name := None; msg_dialogue := None;
  msg_mood := Some "angry";
|}.

(** An [action_result] with dialogue, a world event and two feedback
    lines; the handler does not read [parsed_action]. *)
Definition apples_bought : ServerMessage := {|
  msg_type := Some "action_result"; msg_text := None; msg_is_final := None;
  msg_parsed_action := None; msg_validation_passed := Some true;
  msg_feedback := Some ["Polite request"; "Quantity given"];
  msg_world_diff :=
    Some {| player_changes := []; npc_changes := []; mission_changes := [];
            npc_dialogue := Some "Three apples, coming up";
            world_event := Some "Gregor hands you three apples" |};
  msg_state := None; msg_agent := None; msg_step := None;
  msg_details := None; msg_message := None; msg_recoverable := None;
  msg_audio_data := None; msg_npc_name := None; msg_dialogue := None;
  msg_mood := None;
|}.

(** An [action_result] with dialogue and a world event whose [feedback]
    field is missing. *)
Definition apples_without_feedback : ServerMessage := {|
  msg_type := Some "action_result"; msg_text := None; msg_is_final := None;
  msg_parsed_action := None; msg_validation_passed := Some true;
  msg_feedback := None;
  msg_world_diff :=
    Some {| player_changes := []; npc_changes := []; mission_changes := [];
            npc_dialogue := Some "Three apples, coming up";
            world_event := Some "Gregor hands you three apples" |};
  msg_state := None; msg_agent := None; msg_step := None;
  msg_details := None; msg_message := None; msg_recoverable := None;
  msg_audio_data := None; msg_npc_name := None; msg_dialogue := None;
  msg_mood := None;
|}.

(** A [trim] for the scenarios: it drops one leading space. *)
Definition drop_space (s : string) : string :=
  match s with
  | String c rest => if Ascii.eqb c (Ascii.ascii_of_nat 32) then rest else s
  | EmptyString => s
  end.

(** The speech hook while it listens. *)
Definition listening_hook : UseSpeechRecognition.Hook :=
  UseSpeechRecognition.mkHook (Some UseSpeechRecognition.listening) true
    "buy" true [] [].

(** The push-to-talk client, idle, with its socket open. *)
Definition idle_app : PushToTalk.App :=
  (UseAudioStream.mkHook false None None None [] [],
   UseSimulationSocket.onopen
     (UseSimulationSocket.mount UseSimulationSocket.initial)).

End MoreScenarios.

(* ===================================================================== *)
(** * Properties of the store *)
(* ===================================================================== *)

Section BoundedLogs.
Import Types AppStore.

Lemma slice_last_length {A : Type} (n : nat) (l : list A) :
  length (slice_last n l) = min (length l) n.
Proof. unfold slice_last. rewrite length_drop. lia. Qed.

Lemma slice_last_short {A : Type} (n : nat) (l : list A) :
  length l <= n -> slice_last n l = l.
Proof.
  intros H. unfold slice_last.
  replace (length l - n) with 0 by lia. reflexivity.
Qed.

(** At the cap, [slice (-n)] drops exactly the head. *)
Lemma slice_last_full {A : Type} (n : nat) (x : A) (l : list A) :
  length l = n -> slice_last n (x :: l) = l.
Proof.
  intros H. unfold slice_last. cbn [length].
  replace (S (length l) - n) with 1 by lia. reflexivity.
Qed.

Lemma addTranscript_length e id now s :
  length (transcripts (addTranscript e id now s))
  = S (min (length (transcripts s)) 50).
Proof.
  unfold addTranscript; cbn [transcripts].
  rewrite length_app, slice_last_length. cbn [length]. lia.
Qed.

Lemma addReasoningStep_length st id now s :
  length (reasoningChain (addReasoningStep st id now s))
  = S (min (length (reasoningChain s)) 20).
Proof.
  unfold addReasoningStep; cbn [reasoningChain].
  rewrite length_app, slice_last_length. cbn [length]. lia.
Qed.

(** What the code does guarantee: the logs hold at most 51 and 21 entries
    after any sequence of calls. *)
Lemma run_calls_bounds cs s :
  length (transcripts s) <= 51 -> length (reasoningChain s) <= 21 ->
  length (transcripts (run_calls cs s)) <= 51
  /\ length (reasoningChain (run_calls cs s)) <= 21.
Proof.
  revert s. induction cs as [|c cs IH]; intros s Ht Hr; [done|].
  cbn [run_calls fold_left]. apply IH; destruct c; cbn [run_call].
  - rewrite addTranscript_length. lia.
  - exact Ht.
  - exact Hr.
  - rewrite addReasoningStep_length. lia.
Qed.

(** Eviction is first-in first-out: on a log that holds 51 entries the
    call drops the oldest one and keeps the order of the rest. *)
Lemma addTranscript_evicts_oldest e id now s x l :
  transcripts s = x :: l -> length l = 50 ->
  transcripts (addTranscript e id now s)
  = l ++ [ {| te_id := id; te_type := ti_type e; te_text := ti_text e;
              te_timestamp := now |} ].
Proof.
  intros Hs Hl. unfold addTranscript; cbn [transcripts].
  rewrite Hs, slice_last_full by exact Hl. reflexivity.
Qed.

End BoundedLogs.

Section LogCaps.
Import Types AppStore Scenarios.

(** 52 calls: the entries of times 1 to 51 remain, in order; the entry of
    time 0 went first. *)
Example fifty_two_adds :
  map te_timestamp (transcripts (run_calls (numbered_adds 52) initial))
  = map Z.of_nat (seq 1 51).
Proof. vm_compute. reflexivity. Qed.

(** C1 (the code departs from the claim).  The claim caps the transcript
    log at 50 entries and the reasoning log at 20.  Each action keeps the
    last 50 (20) entries of the old log and then appends the new one, so
    51 calls of [addTranscript] on the initial store leave 51 entries and
    21 calls of [addReasoningStep] leave 21. *)
Theorem log_caps_exceeded_by_one :
  length (transcripts
            (run_calls (replicate 51 (CallAddTranscript hello "id" 0%Z)) initial))
  = 51
  /\ length (reasoningChain
               (run_calls (replicate 21 (CallAddReasoningStep thinking "id" 0%Z))
                  initial))
     = 21.
Proof. split; vm_compute; reflexivity. Qed.

End LogCaps.

(* ===================================================================== *)
(** * Properties of the transport hook *)
(* ===================================================================== *)

Section Transport.
Import Types AppStore UseWebSocket Scenarios.
Local Open Scope hook_scope.

Lemma tag_is_true m tag : msg_type m = Some tag -> tag_is m tag = true.
Proof. intros H. unfold tag_is. by apply bool_decide_eq_true. Qed.

Lemma tag_is_other m tag tag' :
  msg_type m = Some tag -> tag <> tag' -> tag_is m tag' = false.
Proof.
  intros H Hne. unfold tag_is. apply bool_decide_eq_false. congruence.
Qed.

Lemma recognized_false m :
  recognized m = false ->
  tag_is m "world_state" = false /\ tag_is m "transcript" = false
  /\ tag_is m "action_result" = false /\ tag_is m "reasoning" = false
  /\ tag_is m "npc_audio" = false /\ tag_is m "error" = false
  /\ tag_is m "pong" = false.
Proof.
  unfold recognized, recognized_tags. cbn [existsb].
  rewrite !orb_false_iff. tauto.
Qed.

(** C6.  A message whose tag is none of the seven recognized ones
    ([world_state], [transcript], [action_result], [reasoning],
    [npc_audio], [error], [pong]) runs no case of the switch: the handler
    completes normally and the world after it is the world before it with
    the entry log line added, so the store (the projected view model) is
    unchanged. *)
Theorem unrecognized_tag_is_ignored (m : ServerMessage) (w : World) :
  recognized m = false ->
  handleMessage m w
  = (Normal tt, set_console (fun c => c ++ [received_line m]) w)
  /\ store (snd (handleMessage m w)) = store w.
Proof.
  intros H. apply recognized_false in H.
  destruct H as (H1 & H2 & H3 & H4 & H5 & H6 & H7).
  assert (E : handleMessage m w
              = (Normal tt, set_console (fun c => c ++ [received_line m]) w)).
  { unfold handleMessage, bind, console_log, modify.
    rewrite H1, H2, H3, H4, H5, H6, H7. reflexivity. }
  split; [exact E | rewrite E; reflexivity].
Qed.

Lemma unrecognized_tag_is_ignored_witness :
  recognized (TaggedMessage "inventory_delta") = false
  /\ store (snd (handleMessage (TaggedMessage "inventory_delta")
                   connected_world))
     = store connected_world.
Proof.
  split; [reflexivity|].
  apply (unrecognized_tag_is_ignored (TaggedMessage "inventory_delta")
           connected_world).
  reflexivity.
Defined.

(** C7.  When [JSON.parse] rejects the payload, [ws.onmessage] completes
    normally: the error is logged, and the store, the sockets (so the
    connection and its ready state) and the current socket reference are
    what they were. *)
Theorem unparseable_payload_is_dropped (data : string) (w : World) :
  JSON_parse (platform w) data = None ->
  let after := ws_onmessage data w in
  fst after = Normal tt
  /\ store (snd after) = store w
  /\ sockets (snd after) = sockets w
  /\ wsRef (snd after) = wsRef w
  /\ console (snd after)
     = console w ++ [console_error_line "[WS] Failed to parse message:"].
Proof.
  intros H. unfold ws_onmessage, try_catch, bind, get. cbn beta iota.
  rewrite H. cbn. repeat split; reflexivity.
Qed.

Lemma unparseable_payload_is_dropped_witness :
  JSON_parse (platform connected_world) "{type:" = None
  /\ fst (ws_onmessage "{type:" connected_world) = Normal tt
  /\ store (snd (ws_onmessage "{type:" connected_world))
     = store connected_world
  /\ current_readyState (snd (ws_onmessage "{type:" connected_world))
     = Some OPEN.
Proof.
  pose proof (unparseable_payload_is_dropped "{type:" connected_world
                eq_refl) as (H1 & H2 & H3 & H4 & _).
  split; [reflexivity|]. split; [exact H1|]. split; [exact H2|].
  unfold current_readyState. rewrite H3, H4. reflexivity.
Defined.

(** C5.  [sendTranscript] on a channel that is not open (no socket, or a
    socket that is connecting, closing or closed) completes normally and
    changes nothing but the console: no socket has anything added to what
    it sent, and the store is untouched. *)
Theorem sendTranscript_when_not_open (text : string) (isFinal : bool)
    (w : World) :
  is_open w = false ->
  let after := sendTranscript text isFinal w in
  fst after = Normal tt
  /\ sockets (snd after) = sockets w
  /\ store (snd after) = store w
  /\ snd after
     = set_console (fun c => c ++ [console_error_line "[WS] Not connected"]) w.
Proof.
  intros H. unfold sendTranscript, bind, get. cbn beta iota.
  rewrite H. cbn. repeat split; reflexivity.
Qed.

Lemma sendTranscript_when_not_open_witness :
  is_open (initial_world stub_platform) = false
  /\ fst (sendTranscript "three apples, please" true
            (initial_world stub_platform)) = Normal tt
  /\ sockets (snd (sendTranscript "three apples, please" true
                     (initial_world stub_platform))) = [].
Proof.
  pose proof (sendTranscript_when_not_open "three apples, please" true
                (initial_world stub_platform) eq_refl) as (H1 & H2 & _).
  split; [reflexivity|]. split; [exact H1 | exact H2].
Defined.

(** C3.  Delivering [{ type: 'world_state', state: s }] twice in a row
    leaves the same store as delivering it once.  Both deliveries
    complete normally, and after either one [worldState] is [s] and
    [mission] is [s.current_mission], whatever the store held before. *)
Theorem world_state_message_is_idempotent (s : WorldState) (w : World) :
  let once := handleMessage (WorldStateMessage s) w in
  let twice := handleMessage (WorldStateMessage s) (snd once) in
  fst once = Normal tt /\ fst twice = Normal tt
  /\ store (snd twice) = store (snd once)
  /\ worldState (store (snd once)) = Some s
  /\ mission (store (snd once)) = current_mission s.
Proof. cbv zeta. repeat split; reflexivity. Qed.

Lemma transcript_without_text m w :
  msg_type m = Some "transcript" -> truthy (msg_text m) = false ->
  handleMessage m w
  = (Normal tt, set_console (fun c => c ++ [received_line m]) w).
Proof.
  intros Ht Hx. unfold handleMessage, bind, console_log, modify.
  rewrite (tag_is_other m "transcript" "world_state" Ht) by discriminate.
  rewrite (tag_is_true m "transcript" Ht), Hx. reflexivity.
Qed.

(** C10.  For a message tagged [transcript]: when its text is the empty
    string the handler completes normally and the store, and with it the
    transcript log, is unchanged; and whenever the handler does change the
    transcript log, the text is a non-empty string. *)
Theorem empty_transcript_text_adds_no_entry (m : ServerMessage) (w : World) :
  msg_type m = Some "transcript" ->
  (msg_text m = Some "" ->
   fst (handleMessage m w) = Normal tt
   /\ transcripts (store (snd (handleMessage m w))) = transcripts (store w)
   /\ store (snd (handleMessage m w)) = store w)
  /\ (transcripts (store (snd (handleMessage m w))) <> transcripts (store w) ->
      exists c rest, msg_text m = Some (String c rest)).
Proof.
  intros Ht. split.
  - intros Hx. rewrite (transcript_without_text m w Ht) by (rewrite Hx; reflexivity).
    repeat split; reflexivity.
  - intros Hchg. destruct (msg_text m) as [[|c rest]|] eqn:Hx.
    + exfalso. apply Hchg.
      rewrite (transcript_without_text m w Ht) by (rewrite Hx; reflexivity).
      reflexivity.
    + eauto.
    + exfalso. apply Hchg.
      rewrite (transcript_without_text m w Ht) by (rewrite Hx; reflexivity).
      reflexivity.
Qed.

Lemma empty_transcript_text_adds_no_entry_witness :
  msg_type (TranscriptMessage "" true) = Some "transcript"
  /\ msg_text (TranscriptMessage "" true) = Some ""
  /\ transcripts (store (snd (handleMessage (TranscriptMessage "" true)
                                connected_world)))
     = transcripts (store connected_world).
Proof.
  split; [reflexivity|]. split; [reflexivity|].
  destruct (empty_transcript_text_adds_no_entry (TranscriptMessage "" true)
              connected_world eq_refl) as [H _].
  destruct (H eq_refl) as (_ & Hlog & _). exact Hlog.
Defined.

Lemma digit36_not_hash d :
  Ascii.eqb (digit36 d) (Ascii.ascii_of_nat 35) = false.
Proof.
  unfold digit36. pose proof (Nat.mod_upper_bound d 36 ltac:(lia)) as H.
  revert H. generalize (d mod 36). intros n H.
  do 36 (destruct n as [|n]; [reflexivity|]). lia.
Qed.

Lemma has_hash_toString36 ds : has_hash (toString36 ds) = false.
Proof.
  unfold toString36. induction (take 7 ds) as [|d l IH]; [reflexivity|].
  cbn [map String.string_of_list_ascii has_hash].
  by rewrite digit36_not_hash, IH.
Qed.

Lemma has_hash_local p k : has_hash ("local-" +:+ random_id p k) = false.
Proof. apply has_hash_toString36. Qed.

Lemma connect_fallback_run r answer w :
  truthy (r_sessionId r) = false -> is_open w = false ->
  enters_catch answer = true ->
  connect r answer w = (Normal tt, with_local_socket r w).
Proof.
  intros Hsid Hopen Hc. unfold connect, bind, get. cbn beta iota.
  rewrite Hopen, Hsid.
  assert (E : createSession answer
              = (console_error "Failed to create session:" ;;
                 r <- generateId ;; ret (js_string ("local-" +:+ r))))
    by (destruct answer; [reflexivity .. | discriminate]).
  rewrite E. unfold new_WebSocket, bind, get. cbn.
  rewrite has_hash_local. reflexivity.
Qed.




(** A transcript message with text adds one player entry, with the next
    random identifier and the current time. *)
Example transcript_message_appends :
  transcripts (store (snd (handleMessage (TranscriptMessage "hello" true)
                             connected_world)))
  = [ {| te_id := "k3x9a1b"; te_type := player_entry; te_text := "hello";
         te_timestamp := 0%Z |} ].
Proof. vm_compute. reflexivity. Qed.

(** An [action_result] without [feedback] throws out of [handleMessage]
    after [setLastAction] has run. *)
Example action_result_without_feedback :
  let after := handleMessage (TaggedMessage "action_result") connected_world in
  fst after = Throw (TypeError "message.feedback.forEach")
  /\ lastFeedback (store (snd after)) = None.
Proof. vm_compute. split; reflexivity. Qed.

(** The frame [null] parses, and reading its tag throws into the [catch]
    of [ws.onmessage]. *)
Example null_frame_is_dropped :
  fst (ws_onmessage "null" connected_world) = Normal tt
  /\ store (snd (ws_onmessage "null" connected_world)) = store connected_world.
Proof. vm_compute. split; reflexivity. Qed.

(** An open channel transmits, and a final transcript clears the
    reasoning chain first. *)
Example sendTranscript_when_open :
  map sent (sockets (snd (sendTranscript "hello" true connected_world)))
  = [[TranscriptOut "hello" true]].
Proof. vm_compute. reflexivity. Qed.

(** The guard of [ws.onclose] is decided by the render that built the
    socket: when that render saw [isReconnecting = false] the handler
    schedules a timer whatever the state cell holds now. *)
Lemma ws_onclose_schedules r w :
  r_isReconnecting r = false ->
  timers (snd (ws_onclose r w)) = timers w ++ [(S (timerSeq w), r)]
  /\ isReconnecting (snd (ws_onclose r w)) = true.
Proof.
  intros H. unfold ws_onclose, bind. cbn. rewrite H. cbn.
  split; reflexivity.
Qed.

Lemma ws_onclose_guarded r w :
  r_isReconnecting r = true ->
  timers (snd (ws_onclose r w)) = timers w.
Proof. intros H. unfold ws_onclose, bind. cbn. rewrite H. reflexivity. Qed.

(** C2 (the code departs from the claim).  The component mounts and
    [connect] of the first render runs twice, giving two sockets, both
    built by the render in which [isReconnecting] is [false].  When the
    first socket closes one reconnect timer is pending and the state cell
    is [true].  When the second socket closes before that timer has fired,
    its handler still reads [false] and a second timer is scheduled: two
    reconnect timers are pending. *)
Theorem second_close_stacks_a_second_timer (p : Platform) :
  let r1 := render (initial_world p) in
  let w1 := snd (first_socket_closes (initial_world p)) in
  let w2 := snd (two_sockets_close (initial_world p)) in
  timers w1 = [(1, r1)] /\ isReconnecting w1 = true
  /\ timers w2 = [(1, r1); (2, r1)]
  /\ reconnectTimeoutRef w2 = Some 2.
Proof.
  assert (E1 : connect (render (initial_world p)) FetchRejected
                 (initial_world p)
               = (Normal tt,
                  with_local_socket (render (initial_world p))
                    (initial_world p)))
    by (by apply connect_fallback_run).
  assert (E2 : connect (render (initial_world p)) FetchRejected
                 (with_local_socket (render (initial_world p))
                    (initial_world p))
               = (Normal tt,
                  with_local_socket (render (initial_world p))
                    (with_local_socket (render (initial_world p))
                       (initial_world p))))
    by (by apply connect_fallback_run).
  cbv zeta. unfold first_socket_closes, two_sockets_close, bind, get.
  cbn beta iota. rewrite E1. cbn beta iota. rewrite E2.
  repeat split; reflexivity.
Qed.

End Transport.

(* ===================================================================== *)
(** * Properties of audio capture *)
(* ===================================================================== *)

Section AudioCapture.
Import UseAudioStream.

(** C8.  After [stopRecording], from any state of the hook, the processor
    reference, the audio-context reference and the stream reference are
    all [null] and [isRecording] is [false].  The function is straight-line
    code with one exit; along the way every resource that was held has been
    released: the processor disconnected, the context closed and each
    track of the stream stopped, in that order. *)
Theorem stopRecording_releases_all (h : Hook) :
  let h' := stopRecording h in
  processorRef h' = None
  /\ audioContextRef h' = None
  /\ streamRef h' = None
  /\ isRecording h' = false
  /\ calls h'
     = calls h
       ++ match processorRef h with
          | Some processor => [node_disconnect processor]
          | None => []
          end
       ++ match audioContextRef h with
          | Some audioContext => [context_close audioContext]
          | None => []
          end
       ++ match streamRef h with
          | Some stream => map track_stop (getTracks stream)
          | None => []
          end.
Proof.
  destruct h as [rec [ctx|] [node|] [stream|] cs out]; cbn;
    repeat split; rewrite <- ?app_assoc, ?app_nil_r; reflexivity.
Qed.

(** Stopping after a start that failed once the microphone was granted
    still stops the tracks. *)
Example stopRecording_half_started :
  stopRecording Scenarios.half_started
  = mkHook false None None None [track_stop 7; track_stop 8]
      ["Error accessing microphone:"].
Proof. reflexivity. Qed.

Example samples_converted :
  onaudioprocess [Finite (-1 # 2); Finite (3 # 2); Finite (1 # 3); NaN; NegInf]
  = [-16384; 32767; 10922; 0; -32768]%Z.
Proof. vm_compute. reflexivity. Qed.

Lemma Qle_bool_false (x y : Q) : Qle_bool x y = false -> (y < x)%Q.
Proof.
  intros H. apply Qnot_le_lt. intros Hle.
  apply Qle_bool_iff in Hle. congruence.
Qed.

(** The clamp of a finite sample is a finite value of [-1, 1]. *)
Lemma clamp_finite (q : Q) :
  exists s, clamp (Finite q) = Finite s
            /\ (inject_Z (-1) <= s)%Q /\ (s <= inject_Z 1)%Q.
Proof.
  unfold clamp, Math_min, Math_max.
  destruct (Qle_bool (inject_Z 1) q) eqn:H1.
  - exists (inject_Z 1). cbn. repeat split; discriminate.
  - apply Qle_bool_false in H1.
    destruct (Qle_bool (inject_Z (-1)) q) eqn:H2.
    + exists q. repeat split.
      * by apply Qle_bool_iff.
      * by apply Qlt_le_weak.
    + exists (inject_Z (-1)). repeat split; discriminate.
Qed.

(** Inside the range the clamp is the identity. *)
Lemma clamp_in_range (q : Q) :
  (inject_Z (-1) <= q)%Q -> (q < inject_Z 1)%Q -> clamp (Finite q) = Finite q.
Proof.
  intros Hlo Hhi. unfold clamp, Math_min, Math_max.
  destruct (Qle_bool (inject_Z 1) q) eqn:H1.
  - apply Qle_bool_iff in H1. exfalso. eapply Qlt_not_le; eauto.
  - apply Qle_bool_iff in Hlo. rewrite Hlo. reflexivity.
Qed.

Lemma truncate_scaled_neg (s : Q) (k : Z) :
  (0 <= k)%Z -> (inject_Z (-1) <= s)%Q -> (s < 0)%Q ->
  (- k <= truncate (s * inject_Z k) <= 0)%Z.
Proof.
  intros Hk Hlo Hneg. destruct s as [n d].
  unfold Qle, Qlt in *. unfold truncate. cbn in *.
  rewrite Pos.mul_1_r.
  assert (Hn : (- Z.pos d <= n)%Z) by lia.
  assert (Hn' : (n < 0)%Z) by lia.
  split.
  - apply Z.le_trans with ((- k * Z.pos d) ÷ Z.pos d)%Z.
    + rewrite Z.quot_mul by lia. lia.
    + apply Z.quot_le_mono; [lia | nia].
  - change 0%Z with (0 ÷ Z.pos d)%Z.
    apply Z.quot_le_mono; [lia | nia].
Qed.

Lemma truncate_scaled_nonneg (s : Q) (k : Z) :
  (0 <= k)%Z -> (0 <= s)%Q -> (s <= inject_Z 1)%Q ->
  (0 <= truncate (s * inject_Z k) <= k)%Z.
Proof.
  intros Hk Hlo Hhi. destruct s as [n d].
  unfold Qle in *. unfold truncate. cbn in *.
  rewrite Pos.mul_1_r.
  assert (Hn : (0 <= n)%Z) by lia.
  assert (Hn' : (n <= Z.pos d)%Z) by lia.
  split.
  - change 0%Z with (0 ÷ Z.pos d)%Z.
    apply Z.quot_le_mono; [lia | nia].
  - apply Z.le_trans with ((k * Z.pos d) ÷ Z.pos d)%Z.
    + apply Z.quot_le_mono; [lia | nia].
    + rewrite Z.quot_mul by lia. lia.
Qed.

Lemma scale_finite (s : Q) :
  scale (Finite s)
  = Finite (s * inject_Z (if Qle_bool 0 s then 32767 else 32768)).
Proof. unfold scale, lt_zero, times. by destruct (Qle_bool 0 s). Qed.

(** On an integer of the 16-bit range the modular reduction of [ToInt16]
    is the identity. *)
Lemma ToInt16_no_wrap (q : Q) :
  (-32768 <= truncate q <= 32767)%Z -> ToInt16 (Finite q) = truncate q.
Proof.
  intros H. unfold ToInt16. cbv zeta.
  pose proof (Z.mod_pos_bound (truncate q) 65536 ltac:(lia)) as Hr.
  pose proof (Z.div_mod (truncate q) 65536 ltac:(lia)) as Hq.
  destruct (32768 <=? truncate q mod 65536)%Z eqn:E;
    [apply Z.leb_le in E | apply Z.leb_gt in E]; lia.
Qed.

Lemma scale_clamp_bounds (s : Q) :
  (inject_Z (-1) <= s)%Q -> (s <= inject_Z 1)%Q ->
  exists v, scale (Finite s) = Finite v /\ (-32768 <= truncate v <= 32767)%Z.
Proof.
  intros Hlo Hhi. unfold scale, lt_zero, times.
  destruct (Qle_bool 0 s) eqn:H0; cbn [negb].
  - apply Qle_bool_iff in H0. eexists; split; [reflexivity|].
    pose proof (truncate_scaled_nonneg s 32767 ltac:(lia) H0 Hhi). lia.
  - apply Qle_bool_false in H0. eexists; split; [reflexivity|].
    pose proof (truncate_scaled_neg s 32768 ltac:(lia) Hlo H0). lia.
Qed.

(** C9.  For every sample [x]: the clamp of [x] is a value of [-1, 1]
    (or [x] is not a number and stays so), and it is multiplied by
    [0x8000] when negative and by [0x7FFF] otherwise; the value stored is the
    truncation of the scaled clamp itself, the reduction modulo 2^16
    changing nothing (for not-a-number it is 0); it lies in
    [-32768, 32767]; and [-1] gives [-32768], [1] gives [32767]. *)
Theorem float32_to_int16_in_range (x : Float) :
  match clamp x with
  | Finite s =>
      (inject_Z (-1) <= s)%Q /\ (s <= inject_Z 1)%Q
      /\ scale (Finite s)
         = Finite (s * inject_Z (if Qle_bool 0 s then 32767 else 32768))
  | NaN => x = NaN
  | PosInf | NegInf => False
  end
  /\ match scale (clamp x) with
     | Finite v => float32_to_int16 x = truncate v
     | _ => float32_to_int16 x = 0%Z
     end
  /\ (-32768 <= float32_to_int16 x <= 32767)%Z
  /\ float32_to_int16 (Finite (inject_Z (-1))) = (-32768)%Z
  /\ float32_to_int16 (Finite (inject_Z 1)) = 32767%Z.
Proof.
  assert (Hfin : forall s, (inject_Z (-1) <= s)%Q -> (s <= inject_Z 1)%Q ->
            match scale (Finite s) with
            | Finite v => ToInt16 (scale (Finite s)) = truncate v
            | _ => ToInt16 (scale (Finite s)) = 0%Z
            end
            /\ (-32768 <= ToInt16 (scale (Finite s)) <= 32767)%Z).
  { intros s Hlo Hhi.
    destruct (scale_clamp_bounds s Hlo Hhi) as (v & Hv & Hb).
    rewrite Hv, (ToInt16_no_wrap v Hb). split; [reflexivity | exact Hb]. }
  assert (Hlo1 : float32_to_int16 (Finite (inject_Z (-1))) = (-32768)%Z)
    by (vm_compute; reflexivity).
  assert (Hhi1 : float32_to_int16 (Finite (inject_Z 1)) = 32767%Z)
    by (vm_compute; reflexivity).
  rewrite Hlo1, Hhi1. clear Hlo1 Hhi1.
  unfold float32_to_int16.
  destruct x as [| | |q].
  - cbn. repeat split; lia.
  - change (clamp PosInf) with (Finite (inject_Z 1)).
    destruct (Hfin (inject_Z 1)) as [H1 H2]; [discriminate | discriminate |].
    repeat split; try assumption; try discriminate; try apply scale_finite;
      lia.
  - change (clamp NegInf) with (Finite (inject_Z (-1))).
    destruct (Hfin (inject_Z (-1))) as [H1 H2]; [discriminate | discriminate |].
    repeat split; try assumption; try discriminate; try apply scale_finite;
      lia.
  - destruct (clamp_finite q) as (s & Hs & Hlo & Hhi). rewrite Hs.
    destruct (Hfin s Hlo Hhi) as [H1 H2].
    repeat split; try assumption; try apply scale_finite; lia.
Qed.

End AudioCapture.

(* ===================================================================== *)
(** * Further properties of the store *)
(* ===================================================================== *)

Section LogSequences.
Import Types AppStore LogEntries.

Lemma slice_last_snoc {A : Type} (n : nat) (l : list A) (x : A) :
  slice_last n l ++ [x] = slice_last (S n) (l ++ [x]).
Proof.
  unfold slice_last. rewrite length_app. cbn [length].
  replace (length l + 1 - S n) with (length l - n) by lia.
  rewrite drop_app_le by lia. reflexivity.
Qed.

Lemma slice_last_absorb {A : Type} (n : nat) (l es : list A) :
  slice_last n (slice_last n l ++ es) = slice_last n (l ++ es).
Proof.
  unfold slice_last.
  rewrite <- (drop_app_le l es (length l - n)) by lia.
  rewrite drop_drop. f_equal.
  rewrite length_drop, !length_app. lia.
Qed.

Lemma transcripts_run_call s c :
  transcripts (run_call s c)
  = match transcript_entry_of c with
    | [] => transcripts s
    | es => slice_last 51 (transcripts s ++ es)
    end.
Proof.
  destruct c as [e id now | st id now]; cbn; [|reflexivity].
  apply (slice_last_snoc 50).
Qed.

Lemma reasoningChain_run_call s c :
  reasoningChain (run_call s c)
  = match reasoning_step_of c with
    | [] => reasoningChain s
    | es => slice_last 21 (reasoningChain s ++ es)
    end.
Proof.
  destruct c as [e id now | st id now]; cbn; [reflexivity|].
  apply (slice_last_snoc 20).
Qed.

(** X1.  After any sequence of [addTranscript] and [addReasoningStep]
    calls, the transcript log is the last 51 entries of the old log
    followed by the entries added, in call order, and the reasoning log
    is the last 21 of the old steps followed by the steps added; a log
    that received no entry is unchanged. *)
Theorem logs_after_calls (cs : list LogCall) (s : AppState) :
  transcripts (run_calls cs s)
  = match transcript_entries cs with
    | [] => transcripts s
    | es => slice_last 51 (transcripts s ++ es)
    end
  /\ reasoningChain (run_calls cs s)
     = match reasoning_steps cs with
       | [] => reasoningChain s
       | es => slice_last 21 (reasoningChain s ++ es)
       end.
Proof.
  revert s. induction cs as [|c cs IH]; intros s; [split; reflexivity|].
  change (run_calls (c :: cs) s) with (run_calls cs (run_call s c)).
  destruct (IH (run_call s c)) as [Ht Hr]. rewrite Ht, Hr. clear IH Ht Hr.
  rewrite transcripts_run_call, reasoningChain_run_call.
  unfold transcript_entries, reasoning_steps. cbn [flat_map].
  split.
  - destruct (transcript_entry_of c) as [|x xs] eqn:Hc; [reflexivity|].
    fold (transcript_entries cs).
    destruct (transcript_entries cs) as [|y ys]; cbn [app].
    + rewrite app_nil_r. reflexivity.
    + rewrite slice_last_absorb, <- app_assoc. reflexivity.
  - destruct (reasoning_step_of c) as [|x xs] eqn:Hc; [reflexivity|].
    fold (reasoning_steps cs).
    destruct (reasoning_steps cs) as [|y ys]; cbn [app].
    + rewrite app_nil_r. reflexivity.
    + rewrite slice_last_absorb, <- app_assoc. reflexivity.
Qed.

End LogSequences.

(* ===================================================================== *)
(** * Further properties of the transport hook *)
(* ===================================================================== *)

Section HookCombinators.
Import Types AppStore UseWebSocket HookEvents.
Local Open Scope hook_scope.
Context {A : Type}.

Lemma keeps_ret Q (a : A) : keeps Q (ret a).
Proof. intros w H. exact H. Qed.

Lemma keeps_throw Q e : keeps Q (@throw A e).
Proof. intros w H. exact H. Qed.

Lemma keeps_get Q : keeps Q get.
Proof. intros w H. exact H. Qed.

Lemma keeps_modify (Q : World -> Prop) f :
  (forall w, Q w -> Q (f w)) -> keeps Q (modify f).
Proof. intros Hf w H. apply Hf, H. Qed.

Lemma keeps_bind {B : Type} Q (c : M B) (k : B -> M A) :
  keeps Q c -> (forall b, keeps Q (k b)) -> keeps Q (bind c k).
Proof.
  intros Hc Hk w H. unfold bind. specialize (Hc w H).
  destruct (c w) as [[b|e] w']; cbn in *; [apply Hk, Hc | exact Hc].
Qed.

Lemma keeps_try_catch Q (c : M A) (h : Exn -> M A) :
  keeps Q c -> (forall e, keeps Q (h e)) -> keeps Q (try_catch c h).
Proof.
  intros Hc Hh w H. unfold try_catch. specialize (Hc w H).
  destruct (c w) as [[b|e] w']; cbn in *; [exact Hc | apply Hh, Hc].
Qed.

Lemma returns_ret (a : A) : returns (ret a).
Proof. intros w. by exists a. Qed.

Lemma returns_get : returns get.
Proof. intros w. by exists w. Qed.

Lemma returns_bind {B : Type} (c : M B) (k : B -> M A) :
  returns c -> (forall b, returns (k b)) -> returns (bind c k).
Proof.
  intros Hc Hk w. unfold bind. destruct (Hc w) as [b Hb].
  destruct (c w) as [[b'|e] w']; cbn in Hb; [apply Hk | discriminate].
Qed.

Lemma returns_try_catch (c : M A) (h : Exn -> M A) :
  (forall e, returns (h e)) -> returns (try_catch c h).
Proof.
  intros Hh w. unfold try_catch.
  destruct (c w) as [[b|e] w']; [by exists b | apply Hh].
Qed.

End HookCombinators.

Section HookSteps.
Import Types AppStore UseWebSocket HookEvents.
Local Open Scope hook_scope.

Lemma returns_modify f : returns (modify f).
Proof. intros w. by exists tt. Qed.

Lemma keeps_forEach {B : Type} Q (f : B -> M unit) (l : list B) :
  (forall b, keeps Q (f b)) -> keeps Q (forEach f l).
Proof.
  intros Hf. induction l as [|b l IH]; cbn [forEach].
  - apply keeps_ret.
  - apply keeps_bind; [apply Hf | intros _; exact IH].
Qed.

Lemma returns_forEach {B : Type} (f : B -> M unit) (l : list B) :
  (forall b, returns (f b)) -> returns (forEach f l).
Proof.
  intros Hf. induction l as [|b l IH]; cbn [forEach].
  - apply returns_ret.
  - apply returns_bind; [apply Hf | intros _; exact IH].
Qed.

Lemma returns_unit (c : M unit) w : returns c -> fst (c w) = Normal tt.
Proof. intros H. destruct (H w) as [[] E]. exact E. Qed.

End HookSteps.

(** Takes apart a goal [keeps Q c] along the structure of [c]; what is
    left are the state updates. *)
Ltac keeps_split :=
  repeat
    match goal with
    | |- HookEvents.keeps _ (UseWebSocket.ret _) => apply keeps_ret
    | |- HookEvents.keeps _ (UseWebSocket.throw _) => apply keeps_throw
    | |- HookEvents.keeps _ UseWebSocket.get => apply keeps_get
    | |- HookEvents.keeps _ (UseWebSocket.bind _ _) =>
        apply keeps_bind; [| intros ?]
    | |- HookEvents.keeps _ (UseWebSocket.try_catch _ _) =>
        apply keeps_try_catch; [| intros ?]
    | |- HookEvents.keeps _ (UseWebSocket.forEach _ _) =>
        apply keeps_forEach; intros ?
    | |- HookEvents.keeps _ (UseWebSocket.modify _) =>
        apply keeps_modify; intros ? ?
    | |- HookEvents.keeps _ (if ?b then _ else _) => destruct b eqn:?
    | |- HookEvents.keeps _ (match ?x with _ => _ end) => destruct x eqn:?
    end.

Ltac returns_split :=
  repeat
    match goal with
    | |- HookEvents.returns (UseWebSocket.ret _) => apply returns_ret
    | |- HookEvents.returns UseWebSocket.get => apply returns_get
    | |- HookEvents.returns (UseWebSocket.modify _) => apply returns_modify
    | |- HookEvents.returns (UseWebSocket.bind _ _) =>
        apply returns_bind; [| intros ?]
    | |- HookEvents.returns (UseWebSocket.try_catch _ _) =>
        apply returns_try_catch; intros ?
    | |- HookEvents.returns (UseWebSocket.forEach _ _) =>
        apply returns_forEach; intros ?
    | |- HookEvents.returns (if ?b then _ else _) => destruct b eqn:?
    | |- HookEvents.returns (match ?x with _ => _ end) => destruct x eqn:?
    end.

Ltac unfold_hook :=
  unfold UseWebSocket.handleMessage, UseWebSocket.ws_onmessage,
    UseWebSocket.setWorldState, UseWebSocket.addTranscript,
    UseWebSocket.addReasoningStep, UseWebSocket.setLastAction,
    UseWebSocket.setNpcDialogue, UseWebSocket.play_npc_audio,
    UseWebSocket.clearReasoningChain, UseWebSocket.setSessionId,
    UseWebSocket.setConnected, UseWebSocket.setIsReconnecting,
    UseWebSocket.generateId, UseWebSocket.new_Date,
    UseWebSocket.console_log, UseWebSocket.console_error.

Section MessageHandling.
Import Types AppStore UseWebSocket HookEvents Scenarios.
Local Open Scope hook_scope.

Lemma handleMessage_keeps_transport m x :
  keeps (fun w => transport w = x) (handleMessage m).
Proof.
  unfold_hook. keeps_split;
    match goal with H : transport _ = _ |- _ => exact H end.
Qed.

Lemma handleMessage_keeps_logs m : keeps logs_bounded (handleMessage m).
Proof.
  unfold_hook. keeps_split;
    try assumption;
    match goal with H : logs_bounded _ |- _ => destruct H as [Ht Hr] end;
    split; cbn [store set_store set_console set_drawn set_playing];
    rewrite ?addTranscript_length, ?addReasoningStep_length;
    cbn; lia.
Qed.

Lemma ws_onmessage_keeps_transport data x :
  keeps (fun w => transport w = x) (ws_onmessage data).
Proof.
  unfold ws_onmessage. apply keeps_try_catch.
  - apply keeps_bind; [apply keeps_get | intros w0].
    destruct (JSON_parse (platform w0) data) as [[m|]|];
      [apply handleMessage_keeps_transport | apply keeps_throw ..].
  - intros e. unfold_hook. keeps_split. assumption.
Qed.

Lemma ws_onmessage_keeps_logs data : keeps logs_bounded (ws_onmessage data).
Proof.
  unfold ws_onmessage. apply keeps_try_catch.
  - apply keeps_bind; [apply keeps_get | intros w0].
    destruct (JSON_parse (platform w0) data) as [[m|]|];
      [apply handleMessage_keeps_logs | apply keeps_throw ..].
  - intros e. unfold_hook. keeps_split. assumption.
Qed.

Lemma ws_onmessage_returns data : returns (ws_onmessage data).
Proof.
  unfold ws_onmessage. apply returns_try_catch. intros e.
  unfold_hook. returns_split.
Qed.

(** X2.  Whatever frame arrives, [ws.onmessage] completes normally and
    leaves the connection as it was: the sockets and what was sent on
    them, the current socket, the pending timers, the reconnecting flag,
    the session identifier and the connected flag.  An incoming message
    can only change the projected view. *)
Theorem incoming_frame_leaves_transport (data : string) (w : World) :
  fst (ws_onmessage data w) = Normal tt
  /\ transport (snd (ws_onmessage data w)) = transport w.
Proof.
  split.
  - apply returns_unit, ws_onmessage_returns.
  - by apply (ws_onmessage_keeps_transport data (transport w) w).
Qed.

Lemma tag_is_inv m tag : tag_is m tag = true -> msg_type m = Some tag.
Proof. unfold tag_is. apply bool_decide_eq_true. Qed.

Lemma handleMessage_returns m :
  (msg_type m = Some "world_state" -> msg_state m <> None) ->
  (msg_type m = Some "action_result" -> msg_feedback m <> None) ->
  returns (handleMessage m).
Proof.
  intros Hs Hf. unfold_hook. returns_split.
  - exfalso. apply Hs; [by apply tag_is_inv | reflexivity].
  - exfalso. apply Hf; [by apply tag_is_inv | reflexivity].
Qed.

Lemma bind_after_returns {A B : Type} (c : M A) (k : A -> M B) w :
  returns c -> exists a w', bind c k w = k a w'.
Proof.
  intros H. destruct (H w) as [a Ha]. unfold bind.
  destruct (c w) as [[a'|e] w']; cbn in Ha; [eauto | discriminate].
Qed.

Lemma handleMessage_throws_world_state m w :
  msg_type m = Some "world_state" -> msg_state m = None ->
  fst (handleMessage m w) = Throw (TypeError "state.current_mission").
Proof.
  intros Ht Hs. unfold handleMessage, bind, console_log, modify.
  rewrite (tag_is_true m _ Ht). unfold UseWebSocket.setWorldState.
  rewrite Hs. reflexivity.
Qed.

Lemma handleMessage_throws_action_result m w :
  msg_type m = Some "action_result" -> msg_feedback m = None ->
  fst (handleMessage m w) = Throw (TypeError "message.feedback.forEach").
Proof.
  intros Ht Hf. unfold handleMessage.
  rewrite (tag_is_other m _ "world_state" Ht) by discriminate.
  rewrite (tag_is_other m _ "transcript" Ht) by discriminate.
  rewrite (tag_is_true m _ Ht), Hf.
  repeat match goal with
  | |- context [bind ?c ?k ?w] =>
      let a := fresh "a" in let w' := fresh "w" in let E := fresh "E" in
      destruct (bind_after_returns c k w) as (a & w' & E);
        [unfold_hook; returns_split | rewrite E; clear E]
  end.
  reflexivity.
Qed.

End MessageHandling.

Section Sending.
Import Types AppStore UseWebSocket HookEvents Scenarios MoreScenarios.
Local Open Scope hook_scope.

Lemma is_open_inv w :
  is_open w = true ->
  exists i s, wsRef w = Some i /\ sockets w !! i = Some s /\ readyState s = OPEN.
Proof.
  unfold is_open, current_readyState. intros H.
  apply bool_decide_eq_true in H.
  destruct (wsRef w) as [i|]; [|discriminate]. cbn in H.
  destruct (sockets w !! i) as [s|] eqn:Hs; [|discriminate].
  cbn in H. exists i, s. repeat split; congruence.
Qed.

Lemma sendTranscript_open_run text isFinal w :
  is_open w = true ->
  exists i s,
    wsRef w = Some i /\ sockets w !! i = Some s /\ readyState s = OPEN
    /\ sendTranscript text isFinal w
       = (Normal tt,
          set_sockets
            <[i := mkWebSocket (url s) OPEN (owner s)
                     (sent s ++ [TranscriptOut text isFinal])]>
            (if isFinal then set_store AppStore.clearReasoningChain w else w)).
Proof.
  intros Hopen. destruct (is_open_inv w Hopen) as (i & s & Hi & Hs & Hr).
  exists i, s. split; [exact Hi|]. split; [exact Hs|]. split; [exact Hr|].
  unfold sendTranscript, bind, get. cbn beta iota. rewrite Hopen, Hi.
  cbn [negb]. unfold ws_send, bind, get.
  destruct isFinal; cbn; rewrite Hs, Hr; reflexivity.
Qed.

(** X4.  [sendTranscript] on an open channel completes normally and
    transmits exactly one [transcript] message, on the current socket;
    it first empties the reasoning chain when the transcript is final and
    leaves it alone otherwise.  Nothing else changes. *)
Theorem sendTranscript_transmits_once (text : string) (isFinal : bool)
    (w : World) :
  is_open w = true ->
  exists i s,
    wsRef w = Some i /\ sockets w !! i = Some s
    /\ sendTranscript text isFinal w
       = (Normal tt,
          set_sockets
            <[i := mkWebSocket (url s) OPEN (owner s)
                     (sent s ++ [TranscriptOut text isFinal])]>
            (if isFinal then set_store AppStore.clearReasoningChain w else w)).
Proof.
  intros Hopen.
  destruct (sendTranscript_open_run text isFinal w Hopen)
    as (i & s & Hi & Hs & _ & E).
  by exists i, s.
Qed.

Lemma sendTranscript_transmits_once_witness :
  is_open connected_world = true
  /\ map sent (sockets (snd (sendTranscript "two loaves" false connected_world)))
     = [[TranscriptOut "two loaves" false]].
Proof.
  split; [reflexivity|].
  destruct (sendTranscript_transmits_once "two loaves" false connected_world eq_refl)
    as (i & s & Hi & Hs & E).
  rewrite E. vm_compute in Hi. injection Hi as <-.
  vm_compute in Hs. injection Hs as <-. reflexivity.
Defined.

Lemma sendTranscript_returns text isFinal : returns (sendTranscript text isFinal).
Proof.
  intros w. destruct (is_open w) eqn:Hopen.
  - destruct (sendTranscript_open_run text isFinal w Hopen)
      as (i & s & _ & _ & _ & E).
    rewrite E. by exists tt.
  - unfold sendTranscript, bind, get. cbn beta iota. rewrite Hopen.
    by exists tt.
Qed.

(** What [sendPing] does to the world. *)
Lemma sendPing_when_open w :
  is_open w = true ->
  exists i s,
    wsRef w = Some i /\ sockets w !! i = Some s /\ readyState s = OPEN
    /\ sendPing w
       = (Normal tt,
          set_sockets
            <[i := mkWebSocket (url s) OPEN (owner s) (sent s ++ [PingOut])]> w).
Proof.
  intros Hopen. destruct (is_open_inv w Hopen) as (i & s & Hi & Hs & Hr).
  exists i, s. split; [exact Hi|]. split; [exact Hs|]. split; [exact Hr|].
  unfold sendPing, bind, get. cbn beta iota. rewrite Hopen, Hi.
  unfold ws_send, bind, get. cbn. rewrite Hs, Hr. reflexivity.
Qed.

(** X5.  The heartbeat never throws.  On an open channel it transmits one
    [ping] on the current socket; on any other channel it does nothing at
    all, not even log. *)
Theorem sendPing_silent_unless_open (w : World) :
  fst (sendPing w) = Normal tt
  /\ if is_open w
     then exists i s,
            wsRef w = Some i /\ sockets w !! i = Some s
            /\ sockets (snd (sendPing w))
               = <[i := mkWebSocket (url s) OPEN (owner s)
                          (sent s ++ [PingOut])]> (sockets w)
     else snd (sendPing w) = w.
Proof.
  destruct (is_open w) eqn:Hopen.
  - destruct (sendPing_when_open w Hopen) as (i & s & Hi & Hs & _ & E).
    rewrite E. split; [reflexivity|]. exists i, s. by repeat split.
  - unfold sendPing, bind, get. cbn beta iota. rewrite Hopen.
    split; reflexivity.
Qed.

End Sending.

Section Connecting.
Import Types AppStore UseWebSocket HookEvents Scenarios MoreScenarios.
Local Open Scope hook_scope.

Lemma connect_when_open r answer w :
  is_open w = true -> connect r answer w = (Normal tt, w).
Proof.
  intros H. unfold connect, bind, get. cbn beta iota. rewrite H. reflexivity.
Qed.

(** What [connect] does on a channel that is not open, once the session
    identifier [sid] it will use is known: [w1] is the world after the
    identifier was obtained. *)
Lemma connect_with_sid r answer w :
  is_open w = false ->
  exists sid w1,
    sockets w1 = sockets w /\ wsRef w1 = wsRef w
    /\ isConnected (store w1) = isConnected (store w)
    /\ transcripts (store w1) = transcripts (store w)
    /\ reasoningChain (store w1) = reasoningChain (store w)
    /\ connect r answer w
       = if has_hash sid
         then (Throw SyntaxError,
               set_console
                 (fun c => c ++ [console_log_line
                                   ("[WS] Connecting to " +:+ WS_URL (platform w)
                                      +:+ "/" +:+ sid)]) w1)
         else (Normal tt,
               set_wsRef (Some (length (sockets w)))
                 (set_sockets
                    (fun l => l ++ [mkWebSocket
                                      (WS_URL (platform w) +:+ "/" +:+ sid)
                                      CONNECTING r []])
                    (set_console
                       (fun c => c ++ [console_log_line
                                         ("[WS] Connecting to "
                                            +:+ WS_URL (platform w)
                                            +:+ "/" +:+ sid)]) w1))).
Proof.
  intros Hopen. unfold connect, bind, get. cbn beta iota. rewrite Hopen.
  destruct (truthy (r_sessionId r)); [|destruct answer]; cbn;
    unfold new_WebSocket, bind, get; cbn;
    match goal with
    | |- context [has_hash ?x] => eexists x, _
    end;
    match goal with
    | |- _ /\ _ /\ _ /\ _ /\ _ /\ ?F =>
        assert (HF : F) by (destruct (has_hash _); reflexivity);
          repeat (split; [reflexivity|]); exact HF
    end.
Qed.


(** X7.  A [connect] whose render holds a session identifier does not ask
    the registry: whatever the registry would answer, the store and the
    random source are untouched.  When the identifier contains no [#] the
    call completes and the socket is built for that identifier, the one
    of the render, not the one in the store; when it contains [#] the
    constructor throws and no socket is built. *)
Theorem connect_reuses_held_session (r : Render) (answer : FetchOutcome)
    (w : World) :
  truthy (r_sessionId r) = true ->
  is_open w = false ->
  let after := connect r answer w in
  store (snd after) = store w
  /\ drawn (snd after) = drawn w
  /\ if has_hash (template (r_sessionId r))
     then fst after = Throw SyntaxError /\ sockets (snd after) = sockets w
     else fst after = Normal tt
          /\ sockets (snd after)
             = sockets w
               ++ [mkWebSocket
                     (WS_URL (platform w) +:+ "/" +:+ template (r_sessionId r))
                     CONNECTING r []].
Proof.
  intros Hsid Hopen. unfold connect, bind, get. cbn beta iota.
  rewrite Hopen, Hsid. unfold new_WebSocket, bind, get. cbn.
  destruct (has_hash (template (r_sessionId r))); cbn;
    repeat split; reflexivity.
Qed.

Lemma connect_reuses_held_session_witness :
  truthy (r_sessionId render_with_session) = true
  /\ is_open closed_world = false
  /\ store (snd (connect render_with_session FetchRejected closed_world))
     = store closed_world
  /\ map url (sockets (snd (connect render_with_session FetchRejected
                              closed_world)))
     = ["ws://localhost:8000/ws/s1"; "ws://localhost:8000/ws/s1"].
Proof.
  split; [reflexivity|]. split; [reflexivity|].
  destruct (connect_reuses_held_session render_with_session FetchRejected
              closed_world eq_refl eq_refl) as (H & _ & Hs).
  split; [exact H|].
  change (has_hash (template (r_sessionId render_with_session))) with false
    in Hs.
  destruct Hs as [_ Hs]. rewrite Hs. reflexivity.
Defined.

(** X8.  When the response body parses to a JSON value other than
    [null], whatever the status of the response, [connect] takes
    [session_id] from it as it is, with no fallback and no random draw:
    the store holds it, or no session when it is absent or [null].  When
    its text contains no [#] the call completes and the socket is built
    for that text, which is [undefined] for an absent identifier and
    [null] for a [null] one; when it contains [#] the constructor throws
    and no socket is built. *)
Theorem connect_takes_registry_session (r : Render) (ok : bool)
    (sid : JSField) (w : World) :
  truthy (r_sessionId r) = false ->
  is_open w = false ->
  let after := connect r (JsonBody ok sid) w in
  sessionId (store (snd after)) = stored sid
  /\ drawn (snd after) = drawn w
  /\ if has_hash (template_field sid)
     then fst after = Throw SyntaxError /\ sockets (snd after) = sockets w
     else fst after = Normal tt
          /\ sockets (snd after)
             = sockets w
               ++ [mkWebSocket
                     (WS_URL (platform w) +:+ "/" +:+ template_field sid)
                     CONNECTING r []].
Proof.
  intros Hsid Hopen. unfold connect, bind, get. cbn beta iota.
  rewrite Hopen, Hsid. unfold new_WebSocket, bind, get. cbn.
  destruct (has_hash (template_field sid)); cbn; repeat split; reflexivity.
Qed.

Lemma connect_takes_registry_session_witness :
  truthy (r_sessionId (render (initial_world stub_platform))) = false
  /\ is_open (initial_world stub_platform) = false
  /\ map url (sockets (snd (connect (render (initial_world stub_platform))
                              (JsonBody false js_undefined)
                              (initial_world stub_platform))))
     = ["ws://localhost:8000/ws/undefined"]
  /\ fst (connect (render (initial_world stub_platform))
            (JsonBody true (js_string "a#b")) (initial_world stub_platform))
     = Throw SyntaxError.
Proof.
  split; [reflexivity|]. split; [reflexivity|].
  destruct (connect_takes_registry_session
              (render (initial_world stub_platform)) false js_undefined
              (initial_world stub_platform) eq_refl eq_refl) as (_ & _ & H).
  destruct (connect_takes_registry_session
              (render (initial_world stub_platform)) true (js_string "a#b")
              (initial_world stub_platform) eq_refl eq_refl) as (_ & _ & H').
  change (has_hash (template_field js_undefined)) with false in H.
  change (has_hash (template_field (js_string "a#b"))) with true in H'.
  destruct H as [_ H]. destruct H' as [H' _].
  rewrite H. split; [reflexivity | exact H'].
Defined.

End Connecting.

Section Disconnecting.
Import Types AppStore UseWebSocket HookEvents Scenarios MoreScenarios.
Local Open Scope hook_scope.

Lemma cleared_timer_not_pending id (l : list (nat * Render)) :
  id ∉ (filter (fun t => t.1 ≠ id) l).*1.
Proof.
  intros ([id' r] & -> & Hin)%list_elem_of_fmap.
  apply list_elem_of_filter in Hin as [Hne _]. by apply Hne.
Qed.

(** X9.  [disconnect] never throws.  Afterwards the hook has no current
    socket and the store says disconnected; the reconnect timer that
    [reconnectTimeoutRef] named is no longer pending; and the socket that
    was current is closing or closed.  The reconnecting flag is left as it
    was. *)
Theorem disconnect_detaches (w : World) :
  let after := snd (disconnect w) in
  fst (disconnect w) = Normal tt
  /\ wsRef after = None
  /\ isConnected (store after) = false
  /\ from_option (fun id => id = 0 \/ id ∉ (timers after).*1) True
       (reconnectTimeoutRef w)
  /\ from_option
       (fun s => readyState s = CLOSING \/ readyState s = CLOSED) True
       (wsRef w ≫= fun i => sockets after !! i)
  /\ isReconnecting after = isReconnecting w.
Proof.
  unfold disconnect, bind, get. cbn beta iota.
  destruct (reconnectTimeoutRef w) as [[|id]|];
    (destruct (wsRef w) as [i|] eqn:Hw; cbn;
     [ unfold ws_close, bind, get; cbn;
       destruct (sockets w !! i) as [s|] eqn:Hs; cbn;
       [ pose proof (lookup_lt_Some _ _ _ Hs) as Hlt;
         destruct (readyState s) eqn:Hr; cbn;
         rewrite ?list_lookup_insert_eq by exact Hlt; rewrite ?Hs; cbn
       | rewrite ?Hs; cbn ]
     | rewrite ?Hw; cbn ]);
    repeat split; auto using cleared_timer_not_pending.
Qed.

(** X10.  [disconnect] does not stop the reconnect cycle.  It leaves the
    [onclose] handler on the socket it closes, so when the close event of
    that socket arrives and the socket was built by a render that saw
    [isReconnecting = false], a new reconnect timer is scheduled. *)
Theorem disconnect_then_close_reschedules (i : nat) (s : WebSocket) (w : World) :
  wsRef w = Some i ->
  sockets w !! i = Some s ->
  readyState s = OPEN ->
  r_isReconnecting (owner s) = false ->
  let after := snd (socket_closed i (snd (disconnect w))) in
  (S (timerSeq w), owner s) ∈ timers after
  /\ reconnectTimeoutRef after = Some (S (timerSeq w))
  /\ isReconnecting after = true.
Proof.
  intros Hi Hs Hr Hflag.
  pose proof (lookup_lt_Some _ _ _ Hs) as Hlt.
  unfold disconnect, bind, get. cbn beta iota. rewrite Hi.
  destruct (reconnectTimeoutRef w) as [[|id]|]; cbn;
    unfold ws_close, bind, get; cbn; rewrite Hs, Hr; cbn;
    unfold socket_closed, bind, get; cbn;
    rewrite list_lookup_insert_eq by exact Hlt; cbn;
    unfold ws_onclose, bind; cbn; rewrite Hflag; cbn;
    (split; [apply elem_of_app; right; apply list_elem_of_singleton; reflexivity
            | split; reflexivity]).
Qed.

Lemma disconnect_then_close_reschedules_witness :
  wsRef connected_world = Some 0
  /\ r_isReconnecting (render (initial_world stub_platform)) = false
  /\ reconnectTimeoutRef
       (snd (socket_closed 0 (snd (disconnect connected_world))))
     = Some 1.
Proof.
  split; [reflexivity|]. split; [reflexivity|].
  destruct (disconnect_then_close_reschedules 0
              (mkWebSocket "ws://localhost:8000/ws/s1" OPEN
                 (render (initial_world stub_platform)) [])
              connected_world eq_refl eq_refl eq_refl eq_refl)
    as (_ & H & _).
  exact H.
Defined.

Lemma timer_fired_found id answer w k id' r :
  list_find (fun t => t.1 = id) (timers w) = Some (k, (id', r)) ->
  timer_fired id answer w
  = connect r answer
      (set_console (fun c => c ++ [console_log_line "[WS] Attempting reconnect..."])
         (set_timers (filter (fun t => t.1 ≠ id)) w)).
Proof.
  intros H. unfold timer_fired, bind, get. cbn beta iota. rewrite H.
  reflexivity.
Qed.

(** X11.  A reconnect uses the bindings of the render that scheduled it.
    When that render held no session identifier, the timer's [connect]
    asks the registry again and, on a JSON answer, overwrites the session
    identifier in the store with the one answered, whatever the store
    held; the timer itself is no longer pending.  One new socket is built
    for the new identifier unless it contains [#], in which case the
    constructor throws and none is built. *)
Theorem reconnect_replaces_session (id : nat) (ok : bool) (sid : JSField)
    (w : World) (k id' : nat) (r : Render) :
  list_find (fun t => t.1 = id) (timers w) = Some (k, (id', r)) ->
  truthy (r_sessionId r) = false ->
  is_open w = false ->
  let after := snd (timer_fired id (JsonBody ok sid) w) in
  sessionId (store after) = stored sid
  /\ (id ∉ (timers after).*1)
  /\ sockets after
     = sockets w
       ++ (if has_hash (template_field sid) then []
           else [mkWebSocket
                   (WS_URL (platform w) +:+ "/" +:+ template_field sid)
                   CONNECTING r []]).
Proof.
  intros Hfind Hsid Hopen.
  rewrite (timer_fired_found id _ w k id' r Hfind).
  unfold connect, bind, get. cbn beta iota.
  change (is_open (set_console _ (set_timers _ w))) with (is_open w).
  rewrite Hopen, Hsid. unfold new_WebSocket, bind, get. cbn.
  destruct (has_hash (template_field sid)); cbn;
    (split; [reflexivity|]; split; [apply cleared_timer_not_pending|]);
    rewrite ?app_nil_r; reflexivity.
Qed.

Lemma reconnect_replaces_session_witness :
  sessionId (store closed_world) = Some "s1"
  /\ is_open closed_world = false
  /\ sessionId (store (snd (timer_fired 1 (JsonBody true (js_string "s2"))
                              closed_world)))
     = Some "s2".
Proof.
  split; [reflexivity|]. split; [reflexivity|].
  destruct (reconnect_replaces_session 1 true (js_string "s2") closed_world
              0 1 (render (initial_world stub_platform))
              eq_refl eq_refl eq_refl) as (H & _).
  exact H.
Defined.

End Disconnecting.

Ltac unfold_transport :=
  unfold UseWebSocket.connect, UseWebSocket.createSession,
    UseWebSocket.new_WebSocket, UseWebSocket.disconnect,
    UseWebSocket.clearTimeout, UseWebSocket.ws_close,
    UseWebSocket.socket_opened, UseWebSocket.socket_closed,
    UseWebSocket.socket_message, UseWebSocket.timer_fired,
    UseWebSocket.ws_onopen, UseWebSocket.ws_onclose,
    UseWebSocket.ws_onerror, UseWebSocket.setTimeout_reconnect,
    UseWebSocket.sendTranscript, UseWebSocket.sendPing,
    UseWebSocket.ws_send.

Section Session.
Import Types AppStore UseWebSocket HookEvents Scenarios MoreScenarios.
Local Open Scope hook_scope.

Lemma connect_outcome r answer w :
  fst (connect r answer w) = Normal tt
  \/ fst (connect r answer w) = Throw SyntaxError.
Proof.
  destruct (is_open w) eqn:Hopen.
  - rewrite connect_when_open by exact Hopen. by left.
  - destruct (connect_with_sid r answer w Hopen)
      as (sid & w1 & _ & _ & _ & _ & _ & E).
    rewrite E. destruct (has_hash sid); [by right | by left].
Qed.

Lemma sendPing_returns : returns sendPing.
Proof.
  intros w. destruct (is_open w) eqn:Hopen.
  - destruct (sendPing_when_open w Hopen) as (i & s & _ & _ & _ & E).
    rewrite E. by exists tt.
  - unfold sendPing, bind, get. cbn beta iota. rewrite Hopen. by exists tt.
Qed.

(** X12.  The only exception an event of a session can end in is the
    [SyntaxError] of the [WebSocket] constructor, out of a [connect]
    called directly or by a reconnect timer.  Every call of [disconnect],
    [sendTranscript] and the heartbeat, and every open, closing, close,
    message and error event of a socket, completes normally from every
    state of the hook. *)
Theorem events_throw_only_in_the_constructor (e : Event) (w : World) :
  match e with
  | call_connect _ _ | timeout_event _ _ =>
      fst (dispatch e w) = Normal tt
      \/ fst (dispatch e w) = Throw SyntaxError
  | _ => fst (dispatch e w) = Normal tt
  end.
Proof.
  destruct e; cbn [dispatch].
  - apply connect_outcome.
  - apply returns_unit. unfold_transport. unfold_hook. returns_split.
  - apply returns_unit, sendTranscript_returns.
  - apply returns_unit, sendPing_returns.
  - apply returns_unit. unfold_transport. unfold_hook. returns_split.
  - apply returns_unit. unfold socket_closing. returns_split.
  - apply returns_unit. unfold_transport. unfold_hook. returns_split.
  - apply returns_unit. unfold socket_message. returns_split.
    apply ws_onmessage_returns.
  - apply returns_unit. unfold_transport. unfold_hook. returns_split.
  - destruct (list_find (fun t => t.1 = timer) (timers w))
      as [[k [id' r]]|] eqn:Hf.
    + rewrite (timer_fired_found timer answer w k id' r Hf).
      apply connect_outcome.
    + unfold timer_fired, bind, get. cbn beta iota. rewrite Hf. by left.
Qed.

Lemma clear_keeps_logs w :
  logs_bounded w -> logs_bounded (set_store AppStore.clearReasoningChain w).
Proof. intros [Ht Hr]. split; cbn; [exact Ht | lia]. Qed.

Lemma connect_keeps_logs r answer : keeps logs_bounded (connect r answer).
Proof.
  unfold_transport. unfold_hook. keeps_split.
  all: match goal with H : logs_bounded _ |- _ => exact H end.
Qed.

Lemma dispatch_keeps_logs e : keeps logs_bounded (dispatch e).
Proof.
  destruct e; cbn [dispatch].
  all: try (unfold socket_closing; unfold_transport; unfold_hook; keeps_split;
            match goal with
            | H : logs_bounded _ |- _ =>
                first [exact H | exact (clear_keeps_logs _ H)]
            end).
  - unfold socket_message. keeps_split; try assumption.
    apply ws_onmessage_keeps_logs.
  - unfold timer_fired. apply keeps_bind; [apply keeps_get | intros w0].
    destruct (list_find _ _) as [[k [id' r]]|]; [|apply keeps_ret].
    unfold clearTimeout. unfold_hook.
    apply keeps_bind; [|intros _; apply keeps_bind;
                         [|intros _; apply connect_keeps_logs]];
      apply keeps_modify; intros w H; exact H.
Qed.

Lemma run_events_snoc es e w :
  run_events (es ++ [e]) w = snd (dispatch e (run_events es w)).
Proof. unfold run_events. rewrite fold_left_app. reflexivity. Qed.

(** X13.  Along any session of the hook, starting from the mount, the
    transcript log never holds more than 51 entries and the reasoning
    chain never more than 21, whatever messages the server sends (an
    [action_result] may carry any number of feedback lines). *)
Theorem logs_bounded_in_session (p : Platform) (es : list Event) :
  length (transcripts (store (run_events es (initial_world p)))) <= 51
  /\ length (reasoningChain (store (run_events es (initial_world p)))) <= 21.
Proof.
  change (logs_bounded (run_events es (initial_world p))).
  induction es as [|e es IH] using rev_ind.
  - split; cbn; lia.
  - rewrite run_events_snoc. by apply dispatch_keeps_logs.
Qed.

Lemma session_ok_transport w w' :
  transport w' = transport w -> session_ok w -> session_ok w'.
Proof.
  unfold transport, session_ok, some_socket_live.
  intros [= Hs _ _ _ _ _ _ Hc] H. rewrite Hs, Hc. exact H.
Qed.

Lemma live_socket_after_insert (l : list WebSocket) i s' :
  readyState s' = OPEN \/ readyState s' = CLOSING ->
  (exists j s, l !! j = Some s
               /\ (readyState s = OPEN \/ readyState s = CLOSING)) ->
  exists j s, <[i := s']> l !! j = Some s
              /\ (readyState s = OPEN \/ readyState s = CLOSING).
Proof.
  intros Hs' (j & s & Hj & Hr).
  destruct (decide (i = j)) as [->|Hne].
  - exists j, s'. split; [|exact Hs'].
    apply list_lookup_insert_eq. by eapply lookup_lt_Some.
  - exists j, s. by rewrite list_lookup_insert_ne.
Qed.

Lemma connect_keeps_session r answer : keeps session_ok (connect r answer).
Proof.
  intros w Hc. destruct (is_open w) eqn:Hopen.
  - rewrite connect_when_open by exact Hopen. exact Hc.
  - destruct (connect_with_sid r answer w Hopen)
      as (sid & w1 & Hs & _ & Hi & _ & _ & E).
    rewrite E. unfold session_ok, some_socket_live in *.
    destruct (has_hash sid); cbn; rewrite Hi, ?Hs; intros H;
      destruct (Hc H) as (j & s & Hj & Hr); exists j, s;
      (split; [|exact Hr]); [exact Hj | by apply lookup_app_l_Some].
Qed.

Lemma disconnect_ends_detached w :
  wsRef (snd (disconnect w)) = None
  /\ isConnected (store (snd (disconnect w))) = false.
Proof.
  unfold disconnect, bind, get. cbn beta iota.
  destruct (reconnectTimeoutRef w) as [[|id]|];
    (destruct (wsRef w) as [i|] eqn:Hw; cbn;
     [ unfold ws_close, bind, get; cbn;
       destruct (sockets w !! i) as [s|]; cbn;
       [destruct (readyState s); cbn |]
     | rewrite ?Hw ]);
    split; reflexivity.
Qed.

Lemma dispatch_keeps_session e : keeps session_ok (dispatch e).
Proof.
  destruct e; cbn [dispatch]; intros w Hok.
  - by apply connect_keeps_session.
  - destruct (disconnect_ends_detached w) as [_ Hc].
    unfold session_ok. rewrite Hc. discriminate.
  - destruct (is_open w) eqn:Hopen.
    + destruct (sendTranscript_open_run text isFinal w Hopen)
        as (i & s & Hi & Hs & Ho & E).
      rewrite E. intros H. unfold some_socket_live.
      destruct isFinal; cbn in *;
        (apply live_socket_after_insert; [by left | by apply Hok]).
    + unfold sendTranscript, bind, get. cbn beta iota. rewrite Hopen.
      exact Hok.
  - destruct (is_open w) eqn:Hopen.
    + destruct (sendPing_when_open w Hopen) as (i & s & Hi & Hs & Ho & E).
      rewrite E. intros H. unfold some_socket_live. cbn in *.
      apply live_socket_after_insert; [by left | by apply Hok].
    + unfold sendPing, bind, get. cbn beta iota. rewrite Hopen. exact Hok.
  - unfold socket_opened, bind, get. cbn beta iota.
    destruct (sockets w !! socket) as [s|] eqn:Hs; [|exact Hok].
    destruct (decide (readyState s = CONNECTING)); [|exact Hok].
    cbn. intros _. eexists socket, _.
    split; [apply list_lookup_insert_eq; by eapply lookup_lt_Some |].
    by left.
  - unfold socket_closing, bind, get. cbn beta iota.
    destruct (sockets w !! socket) as [s|] eqn:Hs; [|exact Hok].
    destruct (decide (readyState s = OPEN)); [|exact Hok].
    cbn. intros H. unfold some_socket_live. cbn.
    apply live_socket_after_insert; [by right | by apply Hok].
  - unfold socket_closed, bind, get. cbn beta iota.
    destruct (sockets w !! socket) as [s|] eqn:Hs; [|exact Hok].
    destruct (decide (readyState s = CLOSED)); [exact Hok|].
    unfold ws_onclose, bind. cbn.
    destruct (r_isReconnecting (owner s)); cbn; intros H; discriminate H.
  - unfold socket_message, bind, get. cbn beta iota.
    destruct (sockets w !! socket) as [s|]; [|exact Hok].
    destruct (decide (readyState s = OPEN)); [|exact Hok].
    eapply session_ok_transport; [|exact Hok].
    by apply (ws_onmessage_keeps_transport data (transport w) w).
  - exact Hok.
  - destruct (list_find (fun t => t.1 = timer) (timers w))
      as [[k [id' r]]|] eqn:Hf.
    + rewrite (timer_fired_found timer answer w k id' r Hf).
      apply connect_keeps_session. exact Hok.
    + unfold timer_fired, bind, get. cbn beta iota. rewrite Hf. exact Hok.
Qed.

(** X14.  Along any session of one hook instance, starting from the
    mount, the store reports [isConnected] only while some socket of the
    hook has opened and has not had its [close] event yet, that is while
    some socket is open or closing.  The session may contain closing
    handshakes started by the server, which move a socket from open to
    closing before its [close] event. *)
Theorem connected_only_with_live_socket (p : Platform) (es : list Event) :
  let w := run_events es (initial_world p) in
  isConnected (store w) = true ->
  exists i s, sockets w !! i = Some s
              /\ (readyState s = OPEN \/ readyState s = CLOSING).
Proof.
  cbv zeta.
  change (session_ok (run_events es (initial_world p))).
  induction es as [|e es IH] using rev_ind.
  - intros H. discriminate H.
  - rewrite run_events_snoc. by apply dispatch_keeps_session.
Qed.

Lemma connected_only_with_live_socket_witness :
  let es := [call_connect (render (initial_world stub_platform))
               (JsonBody true (js_string "s1"));
             open_event 0; closing_event 0] in
  let w := run_events es (initial_world stub_platform) in
  isConnected (store w) = true
  /\ map readyState (sockets w) = [CLOSING]
  /\ exists i s, sockets w !! i = Some s
                 /\ (readyState s = OPEN \/ readyState s = CLOSING).
Proof.
  cbv zeta. split; [reflexivity|]. split; [reflexivity|].
  apply (connected_only_with_live_socket stub_platform
           [call_connect (render (initial_world stub_platform))
              (JsonBody true (js_string "s1"));
            open_event 0; closing_event 0]).
  reflexivity.
Defined.

End Session.

Section MessageFrames.
Import Types AppStore UseWebSocket HookEvents Scenarios MoreScenarios.
Local Open Scope hook_scope.

Lemma tag_is_false m tag : msg_type m <> Some tag -> tag_is m tag = false.
Proof. intros H. unfold tag_is. by apply bool_decide_eq_false. Qed.

Lemma handleMessage_keeps_world m x :
  msg_type m <> Some "world_state" ->
  keeps (fun w => (worldState (store w), mission (store w)) = x)
    (handleMessage m).
Proof.
  intros H. unfold handleMessage. rewrite (tag_is_false m _ H).
  unfold_hook. keeps_split.
  all: match goal with H : _ = _ |- _ => exact H end.
Qed.

Lemma handleMessage_keeps_action m x :
  msg_type m <> Some "action_result" ->
  keeps (fun w => (lastAction (store w), lastFeedback (store w),
                   npcDialogue (store w)) = x)
    (handleMessage m).
Proof.
  intros H. unfold handleMessage. rewrite (tag_is_false m _ H).
  unfold_hook. keeps_split.
  all: match goal with H : _ = _ |- _ => exact H end.
Qed.

Lemma handleMessage_keeps_reasoning m x :
  msg_type m <> Some "reasoning" ->
  keeps (fun w => reasoningChain (store w) = x) (handleMessage m).
Proof.
  intros H. unfold handleMessage. rewrite (tag_is_false m _ H).
  unfold_hook. keeps_split.
  all: match goal with H : _ = _ |- _ => exact H end.
Qed.

Lemma handleMessage_keeps_transcripts m x :
  msg_type m <> Some "transcript" -> msg_type m <> Some "action_result" ->
  msg_type m <> Some "error" ->
  keeps (fun w => transcripts (store w) = x) (handleMessage m).
Proof.
  intros H1 H2 H3. unfold handleMessage.
  rewrite (tag_is_false m _ H1), (tag_is_false m _ H2), (tag_is_false m _ H3).
  unfold_hook. keeps_split.
  all: match goal with H : _ = _ |- _ => exact H end.
Qed.

(** X15.  Each part of the projected view has its own messages.  Unless
    the message is tagged [world_state], [worldState] and [mission] are
    unchanged; unless it is tagged [action_result], [lastAction],
    [lastFeedback] and [npcDialogue] are unchanged; unless it is tagged
    [reasoning], the reasoning chain is unchanged; and unless it is tagged
    [transcript], [action_result] or [error], the transcript log is
    unchanged.  This holds whether the handler returns or throws. *)
Theorem message_changes_only_its_part (m : ServerMessage) (w : World) :
  let s := store w in
  let s' := store (snd (handleMessage m w)) in
  (msg_type m = Some "world_state"
   \/ (worldState s' = worldState s /\ mission s' = mission s))
  /\ (msg_type m = Some "action_result"
      \/ (lastAction s' = lastAction s /\ lastFeedback s' = lastFeedback s
          /\ npcDialogue s' = npcDialogue s))
  /\ (msg_type m = Some "reasoning" \/ reasoningChain s' = reasoningChain s)
  /\ (msg_type m = Some "transcript" \/ msg_type m = Some "action_result"
      \/ msg_type m = Some "error" \/ transcripts s' = transcripts s).
Proof.
  cbv zeta. repeat split.
  - destruct (decide (msg_type m = Some "world_state")) as [|H]; [by left|].
    right. pose proof (handleMessage_keeps_world m _ H w eq_refl) as [= -> ->].
    by split.
  - destruct (decide (msg_type m = Some "action_result")) as [|H]; [by left|].
    right.
    pose proof (handleMessage_keeps_action m _ H w eq_refl) as [= -> -> ->].
    by repeat split.
  - destruct (decide (msg_type m = Some "reasoning")) as [|H]; [by left|].
    right. exact (handleMessage_keeps_reasoning m _ H w eq_refl).
  - destruct (decide (msg_type m = Some "transcript")) as [|H1]; [by left|].
    destruct (decide (msg_type m = Some "action_result")) as [|H2];
      [by right; left|].
    destruct (decide (msg_type m = Some "error")) as [|H3];
      [by right; right; left|].
    right; right; right.
    exact (handleMessage_keeps_transcripts m _ H1 H2 H3 w eq_refl).
Qed.

(** X16.  An [npc_audio] message never changes the store and never makes
    the handler throw, whatever its payload: a payload that cannot be
    decoded is caught and logged inside the case. *)
Theorem npc_audio_leaves_store (m : ServerMessage) (w : World) :
  msg_type m = Some "npc_audio" ->
  fst (handleMessage m w) = Normal tt
  /\ store (snd (handleMessage m w)) = store w.
Proof.
  intros Ht. split.
  - apply returns_unit, handleMessage_returns; rewrite Ht; discriminate.
  - assert (K : keeps (fun w' => store w' = store w) (handleMessage m)).
    { unfold handleMessage.
      rewrite (tag_is_other m _ "world_state" Ht),
        (tag_is_other m _ "transcript" Ht),
        (tag_is_other m _ "action_result" Ht),
        (tag_is_other m _ "reasoning" Ht), (tag_is_true m _ Ht)
        by discriminate.
      unfold_hook. keeps_split.
      all: match goal with H : store _ = _ |- _ => exact H end. }
    by apply K.
Qed.

Lemma npc_audio_leaves_store_witness :
  msg_type garbled_audio = Some "npc_audio"
  /\ store (snd (handleMessage garbled_audio (initial_world mute_platform)))
     = store (initial_world mute_platform).
Proof.
  split; [reflexivity|].
  destruct (npc_audio_leaves_store garbled_audio (initial_world mute_platform)
              eq_refl) as (_ & H).
  exact H.
Defined.

End MessageFrames.

(* ===================================================================== *)
(** * Further properties of audio capture *)
(* ===================================================================== *)

From Stdlib Require Import Lqa.

Section AudioMore.
Import UseAudioStream.

(** X17.  Stopping twice is stopping once: the second [stopRecording]
    finds every reference [null] and makes no call on any audio object. *)
Theorem stopRecording_idempotent (h : Hook) :
  stopRecording (stopRecording h) = stopRecording h.
Proof.
  destruct h as [rec [ctx|] [node|] [stream|] cs out]; reflexivity.
Qed.

(** X18.  A [startRecording] that succeeds followed by [stopRecording]
    releases exactly what that start acquired, in the order processor,
    context, tracks, and ends with every reference [null].  References the
    hook held before the start are overwritten by it and are released by
    nobody. *)
Theorem start_then_stop_releases (stream : MediaStream) (ctx node : nat)
    (h : Hook) :
  stopRecording (startRecording (Some stream) (Some ctx) (Some node) h)
  = mkHook false None None None
      (calls h ++ [node_connect node; node_disconnect node; context_close ctx]
         ++ map track_stop (getTracks stream))
      (console h).
Proof.
  destruct h as [rec c p s cs out].
  unfold stopRecording, startRecording. cbn.
  rewrite <- !app_assoc. reflexivity.
Qed.

Lemma truncate_mono (p q : Q) : (p <= q)%Q -> (truncate p <= truncate q)%Z.
Proof.
  destruct p as [n1 d1], q as [n2 d2]. unfold Qle, truncate. cbn. intros H.
  rewrite <- (Z.quot_mul_cancel_r n1 (Z.pos d1) (Z.pos d2)) by lia.
  rewrite <- (Z.quot_mul_cancel_r n2 (Z.pos d2) (Z.pos d1)) by lia.
  rewrite (Z.mul_comm (Z.pos d2) (Z.pos d1)).
  apply Z.quot_le_mono; lia.
Qed.

Lemma clamp_mono (p q : Q) :
  (p <= q)%Q ->
  exists s t, clamp (Finite p) = Finite s /\ clamp (Finite q) = Finite t
              /\ (inject_Z (-1) <= s)%Q /\ (s <= t)%Q /\ (t <= inject_Z 1)%Q.
Proof.
  intros Hpq. unfold clamp, Math_min, Math_max.
  destruct (Qle_bool (inject_Z 1) p) eqn:P1;
    destruct (Qle_bool (inject_Z 1) q) eqn:Q1; cbn;
    destruct (Qle_bool (inject_Z (-1)) p) eqn:P2;
    destruct (Qle_bool (inject_Z (-1)) q) eqn:Q2; cbn.
  all: repeat match goal with
       | H : Qle_bool _ _ = true |- _ => apply Qle_bool_iff in H
       | H : Qle_bool _ _ = false |- _ => apply Qle_bool_false in H
       end.
  all: unfold inject_Z in *.
  all: eexists _, _; split; [reflexivity|]; split; [reflexivity|].
  all: repeat split; lra.
Qed.

Lemma scaled_mono (s t : Q) :
  (inject_Z (-1) <= s)%Q -> (s <= t)%Q -> (t <= inject_Z 1)%Q ->
  (ToInt16 (scale (Finite s)) <= ToInt16 (scale (Finite t)))%Z.
Proof.
  intros Hlo Hst Hhi.
  assert (Hs1 : (s <= inject_Z 1)%Q) by (eapply Qle_trans; eauto).
  assert (Ht1 : (inject_Z (-1) <= t)%Q) by (eapply Qle_trans; eauto).
  destruct (scale_clamp_bounds s Hlo Hs1) as (u & Hu & Bu).
  destruct (scale_clamp_bounds t Ht1 Hhi) as (v & Hv & Bv).
  rewrite Hu, Hv, (ToInt16_no_wrap u Bu), (ToInt16_no_wrap v Bv).
  rewrite scale_finite in Hu, Hv. injection Hu as <-. injection Hv as <-.
  destruct (Qle_bool 0 s) eqn:S0; destruct (Qle_bool 0 t) eqn:T0.
  - apply truncate_mono, Qmult_le_compat_r; [exact Hst | discriminate].
  - apply Qle_bool_iff in S0. apply Qle_bool_false in T0. exfalso.
    apply (Qlt_irrefl 0). eapply Qle_lt_trans; [|exact T0].
    eapply Qle_trans; eauto.
  - apply Qle_bool_false in S0. apply Qle_bool_iff in T0.
    pose proof (truncate_scaled_neg s 32768 ltac:(lia) Hlo S0).
    pose proof (truncate_scaled_nonneg t 32767 ltac:(lia) T0 Hhi). lia.
  - apply truncate_mono, Qmult_le_compat_r; [exact Hst | discriminate].
Qed.

(** X19.  The conversion is monotone: a sample that is not larger is
    converted to an integer that is not larger.  Clipping, the two scale
    factors and the truncation never reverse the order of two samples. *)
Theorem float32_to_int16_monotone (p q : Q) :
  (p <= q)%Q ->
  (float32_to_int16 (Finite p) <= float32_to_int16 (Finite q))%Z.
Proof.
  intros Hpq. unfold float32_to_int16.
  destruct (clamp_mono p q Hpq) as (s & t & -> & -> & Hlo & Hst & Hhi).
  by apply scaled_mono.
Qed.

Lemma float32_to_int16_monotone_witness :
  (-1 # 2 <= 1 # 3)%Q
  /\ (float32_to_int16 (Finite (-1 # 2)) <= float32_to_int16 (Finite (1 # 3)))%Z.
Proof.
  assert (H : (-1 # 2 <= 1 # 3)%Q) by discriminate.
  split; [exact H | exact (float32_to_int16_monotone _ _ H)].
Defined.

End AudioMore.

(* ===================================================================== *)
(** * Properties of speech recognition *)
(* ===================================================================== *)

Section Speech.
Import UseSpeechRecognition MoreScenarios.

Lemma string_app_assoc (a b c : string) : (a +:+ b) +:+ c = a +:+ (b +:+ c).
Proof.
  induction a as [|x a IH]; [reflexivity|].
  change (String x ((a +:+ b) +:+ c) = String x (a +:+ (b +:+ c))).
  by f_equal.
Qed.

Lemma string_app_nil_r (a : string) : a +:+ "" = a.
Proof.
  induction a as [|x a IH]; [reflexivity|].
  change (String x (a +:+ "") = String x a). by f_equal.
Qed.

Lemma concat_cons (x : string) (xs : list string) :
  String.concat "" (x :: xs) = x +:+ String.concat "" xs.
Proof. destruct xs; cbn; [by rewrite string_app_nil_r | reflexivity]. Qed.

Lemma accumulate_spoken rs interim final :
  accumulate rs interim final
  = (interim +:+ spoken (fun r => negb (isFinal r)) rs,
     final +:+ spoken isFinal rs).
Proof.
  revert interim final. induction rs as [|r rs IH]; intros interim final.
  - cbn. by rewrite !string_app_nil_r.
  - cbn [accumulate]. unfold spoken in *. cbn [List.filter].
    destruct (isFinal r); cbn [negb map]; rewrite IH, ?concat_cons,
      ?string_app_assoc; reflexivity.
Qed.

(** X20.  One [result] event makes at most one call of [onTranscript],
    always as final.  With [final] the transcripts of the final results
    from [resultIndex] on, concatenated in order, the call is made exactly
    when [final] is not empty and carries [final], trimmed.  The interim
    caption becomes empty in that case; otherwise it becomes the
    concatenated interim transcripts when there are any, and is kept when
    there are none.  Results before [resultIndex] play no part. *)
Theorem onresult_reports_final_speech (trim : string -> string)
    (event : SpeechRecognitionEvent) (h : Hook) :
  let rs := drop (resultIndex event) (results event) in
  let final := spoken isFinal rs in
  let interim := spoken (fun r => negb (isFinal r)) rs in
  heard (onresult trim event h)
  = heard h ++ (if nonempty final then [(trim final, true)] else [])
  /\ interimTranscript (onresult trim event h)
     = (if nonempty final then ""
        else if nonempty interim then interim else interimTranscript h)
  /\ isRecording (onresult trim event h) = isRecording h
  /\ recognitionRef (onresult trim event h) = recognitionRef h.
Proof.
  cbv zeta. unfold onresult. rewrite accumulate_spoken.
  repeat change ("" +:+ ?s) with s. cbv beta iota.
  destruct (nonempty (spoken isFinal _));
    destruct (nonempty (spoken (fun r => negb (isFinal r)) _)); cbn;
    rewrite ?app_nil_r; repeat split; reflexivity.
Qed.

(** X21.  After [stopRecording], and after an error, the [end] event
    leaves the recognition idle: it is restarted only while the store
    says recording, and both paths have cleared that flag. *)
Theorem end_after_stop_or_error_is_idle (h : Hook) (r : Recognition) :
  recognitionRef h = Some r ->
  recognitionRef (end_event (stopRecording h)) = Some idle
  /\ isRecording (end_event (stopRecording h)) = false
  /\ recognitionRef (end_event (onerror h)) = Some idle
  /\ isRecording (end_event (onerror h)) = false.
Proof.
  intros H. unfold end_event, stopRecording, onerror. cbn. rewrite H. cbn.
  repeat split; reflexivity.
Qed.

Lemma end_after_stop_or_error_is_idle_witness :
  recognitionRef listening_hook = Some listening
  /\ recognitionRef (end_event (stopRecording listening_hook)) = Some idle.
Proof.
  split; [reflexivity|].
  destruct (end_after_stop_or_error_is_idle listening_hook listening eq_refl)
    as (H & _).
  exact H.
Defined.

(** X22.  A restart that comes before the [end] event is lost.  When the
    recognition is listening, [stopRecording] followed at once by
    [startRecording] finds the object still started: [start ()] throws,
    the error is logged, [isRecording] stays [false], and the [end] event
    that follows leaves the recognition idle. *)
Theorem restart_before_end_is_lost (h : Hook) :
  recognitionRef h = Some listening ->
  isSupported h = true ->
  let h' := startRecording (stopRecording h) in
  isRecording h' = false
  /\ recognitionRef h' = Some stopping
  /\ console h' = console h ++ ["Failed to start recording:"]
  /\ recognitionRef (end_event h') = Some idle.
Proof.
  intros Hr Hs. unfold startRecording, stopRecording, end_event. cbn.
  rewrite Hr, Hs. cbn. repeat split; reflexivity.
Qed.

Lemma restart_before_end_is_lost_witness :
  recognitionRef listening_hook = Some listening
  /\ isSupported listening_hook = true
  /\ isRecording (startRecording (stopRecording listening_hook)) = false.
Proof.
  split; [reflexivity|]. split; [reflexivity|].
  destruct (restart_before_end_is_lost listening_hook eq_refl eq_refl)
    as (H & _).
  exact H.
Defined.

End Speech.

(* ===================================================================== *)
(** * Properties of the input handlers *)
(* ===================================================================== *)

Section Inputs.
Import Types AppStore UseWebSocket HookEvents Components Scenarios MoreScenarios.
Local Open Scope hook_scope.

Lemma addTranscript_run text w :
  UseWebSocket.addTranscript {| ti_type := player_entry; ti_text := text |} w
  = (Normal tt, with_player_line text w).
Proof. reflexivity. Qed.

(** X23.  A final spoken line that arrives while the channel is not open
    is added to the transcript log as a player entry and is never
    transmitted: [handleTranscript] does not look at the connection, and
    [sendTranscript] drops the message with a log line only. *)
Theorem spoken_line_logged_but_not_sent (trim : string -> string)
    (text : string) (w : World) :
  truthy (Some (trim text)) = true ->
  is_open w = false ->
  let after := handleTranscript trim text true w in
  fst after = Normal tt
  /\ transcripts (store (snd after))
     = slice_last 50 (transcripts (store w))
       ++ [ {| te_id := random_id (platform w) (drawn w);
               te_type := player_entry; te_text := trim text;
               te_timestamp := clock w |} ]
  /\ sockets (snd after) = sockets w.
Proof.
  intros Htr Hopen. unfold handleTranscript. rewrite Htr. cbn [andb].
  unfold bind. rewrite addTranscript_run.
  unfold sendTranscript, bind, get. cbn beta iota.
  change (is_open (with_player_line (trim text) w)) with (is_open w).
  rewrite Hopen. cbn. repeat split; reflexivity.
Qed.

Lemma spoken_line_logged_but_not_sent_witness :
  truthy (Some (drop_space " two loaves")) = true
  /\ is_open closed_world = false
  /\ map te_text
       (transcripts (store (snd (handleTranscript drop_space " two loaves" true
                                   closed_world))))
     = ["two loaves"]
  /\ map sent (sockets (snd (handleTranscript drop_space " two loaves" true
                               closed_world)))
     = [[]].
Proof.
  split; [reflexivity|]. split; [reflexivity|].
  destruct (spoken_line_logged_but_not_sent drop_space " two loaves"
              closed_world eq_refl eq_refl) as (_ & Hlog & Hsock).
  rewrite Hlog, Hsock. split; reflexivity.
Defined.

(** X24.  A non-blank line submitted while the store says connected and
    the channel is open is logged and transmitted once each, with the
    same trimmed text; the reasoning chain is emptied and the input is
    cleared. *)
Theorem typed_line_logged_and_sent (trim : string -> string) (text : string)
    (w : World) :
  truthy (Some (trim text)) = true ->
  is_open w = true ->
  exists i s,
    wsRef w = Some i /\ sockets w !! i = Some s
    /\ handleSubmit trim text true w
       = (Normal "",
          set_sockets
            <[i := mkWebSocket (url s) OPEN (owner s)
                     (sent s ++ [TranscriptOut (trim text) true])]>
            (set_store AppStore.clearReasoningChain
               (with_player_line (trim text) w))).
Proof.
  intros Htr Hopen.
  destruct (sendTranscript_open_run (trim text) true
              (with_player_line (trim text) w) Hopen)
    as (i & s & Hi & Hs & _ & E).
  exists i, s. split; [exact Hi|]. split; [exact Hs|].
  unfold handleSubmit. rewrite Htr. cbn [andb].
  unfold bind. rewrite addTranscript_run, E. reflexivity.
Qed.

Lemma typed_line_logged_and_sent_witness :
  truthy (Some (drop_space " two loaves")) = true
  /\ is_open connected_world = true
  /\ fst (handleSubmit drop_space " two loaves" true connected_world)
     = Normal ""
  /\ map sent (sockets (snd (handleSubmit drop_space " two loaves" true
                               connected_world)))
     = [[TranscriptOut "two loaves" true]].
Proof.
  split; [reflexivity|]. split; [reflexivity|].
  destruct (typed_line_logged_and_sent drop_space " two loaves"
              connected_world eq_refl eq_refl) as (i & s & Hi & Hs & E).
  rewrite E. vm_compute in Hi. injection Hi as <-.
  vm_compute in Hs. injection Hs as <-. split; reflexivity.
Defined.

End Inputs.

(* ===================================================================== *)
(** * Properties of the push-to-talk client *)
(* ===================================================================== *)

Section Simulation.
Import Types UseSimulationSocket PushToTalk MoreScenarios.

(** X25.  No frame from the simulation server touches the connection:
    [socket.onmessage] leaves the socket, [isConnected] and
    [lastTranscript] as they were, whatever arrives.  And a frame
    delivered a second time changes nothing in the view: [worldState] and
    [feedback] after two deliveries are those after one. *)
Theorem simulation_frame_keeps_connection (parse : string -> option JSON)
    (data : string) (h : Hook) :
  let h1 := onmessage parse data h in
  ws h1 = ws h /\ isConnected h1 = isConnected h
  /\ lastTranscript h1 = lastTranscript h
  /\ worldState (onmessage parse data h1) = worldState h1
  /\ feedback (onmessage parse data h1) = feedback h1.
Proof.
  cbv zeta. unfold onmessage.
  destruct (parse data) as [d|]; [|repeat split; reflexivity].
  destruct d; try (repeat split; reflexivity).
  all: repeat match goal with
       | |- context [if ?b then _ else _] => destruct b eqn:?
       end; repeat split; reflexivity.
Qed.

Lemma sample_in_range (x : UseAudioStream.Float) :
  (-32768 <= UseAudioStream.float32_to_int16 x <= 32767)%Z.
Proof.
  unfold UseAudioStream.float32_to_int16.
  assert (F : forall s, (inject_Z (-1) <= s)%Q -> (s <= inject_Z 1)%Q ->
            (-32768 <= UseAudioStream.ToInt16
                         (UseAudioStream.scale (UseAudioStream.Finite s))
             <= 32767)%Z).
  { intros s Hlo Hhi.
    destruct (scale_clamp_bounds s Hlo Hhi) as (v & -> & Hb).
    by rewrite (ToInt16_no_wrap v Hb). }
  destruct x as [| | |q].
  - cbn. lia.
  - apply (F (inject_Z 1)); discriminate.
  - apply (F (inject_Z (-1))); discriminate.
  - destruct (clamp_finite q) as (s & -> & Hlo & Hhi). by apply F.
Qed.

(** X26.  An audio buffer captured while the socket is open goes out as
    exactly one binary frame with one sample per input sample, each in
    the signed 16-bit range; while the socket is missing, connecting,
    closing or closed the buffer is dropped and nothing changes. *)
Theorem audio_buffer_sends_one_pcm_frame
    (inputData : list UseAudioStream.Float) (app : App) :
  match ws app.2 with
  | Some s =>
      match readyState s with
      | UseWebSocket.OPEN =>
          exists samples,
            ws (audio_buffer inputData app).2
            = Some (mkSocket UseWebSocket.OPEN
                      (sent s ++ [binary_frame samples]))
            /\ length samples = length inputData
            /\ Forall (fun z => (-32768 <= z <= 32767)%Z) samples
      | _ => audio_buffer inputData app = app
      end
  | None => audio_buffer inputData app = app
  end.
Proof.
  destruct app as [a h]. unfold audio_buffer, sendAudio, send_if_open. cbn.
  destruct (ws h) as [s|]; [|reflexivity].
  destruct (readyState s); try reflexivity.
  eexists. split; [reflexivity|]. split.
  - unfold UseAudioStream.onaudioprocess. apply length_map.
  - unfold UseAudioStream.onaudioprocess. apply Forall_forall.
    intros z Hz. apply list_elem_of_In in Hz.
    apply in_map_iff in Hz as (x & <- & _). apply sample_in_range.
Qed.

(** X27.  A capture that fails after the microphone was granted keeps
    the microphone.  [startRecording] has stored the stream but not set
    [isRecording], so the key release that follows does not call
    [stopRecording]: no track is stopped, the stream stays referenced, and
    no [commit] is sent. *)
Theorem failed_start_keeps_microphone (stream : UseAudioStream.MediaStream)
    (node : option nat) (app : App) :
  UseAudioStream.isRecording app.1 = false ->
  let started := handleKeyDown "Space" false (Some stream) None node app in
  handleKeyUp "Space" started = started
  /\ UseAudioStream.streamRef started.1 = Some stream
  /\ UseAudioStream.calls started.1 = UseAudioStream.calls app.1
  /\ started.2 = app.2.
Proof.
  destruct app as [a h]. cbn [fst snd]. intros Hrec.
  unfold handleKeyDown, handleKeyUp. cbn [fst snd]. rewrite Hrec. cbn.
  rewrite Hrec. cbn. repeat split; reflexivity.
Qed.

Lemma failed_start_keeps_microphone_witness :
  UseAudioStream.isRecording idle_app.1 = false
  /\ UseAudioStream.streamRef
       (handleKeyUp "Space"
          (handleKeyDown "Space" false
             (Some {| UseAudioStream.getTracks := [7; 8] |}) None None
             idle_app)).1
     = Some {| UseAudioStream.getTracks := [7; 8] |}.
Proof.
  split; [reflexivity|].
  destruct (failed_start_keeps_microphone
              {| UseAudioStream.getTracks := [7; 8] |} None idle_app eq_refl)
    as (E & H & _).
  rewrite E. exact H.
Defined.

End Simulation.

(* ===================================================================== *)
(** * The lines of an action result *)
(* ===================================================================== *)

Section ActionLines.
Import Types AppStore UseWebSocket HookEvents Scenarios MoreScenarios.
Local Open Scope hook_scope.

Lemma extended_nil old : extended old [] = old.
Proof. reflexivity. Qed.

Lemma extended_app old l1 l2 :
  extended (extended old l1) l2 = extended old (l1 ++ l2).
Proof.
  destruct l1 as [|x l1]; [reflexivity|].
  destruct l2 as [|y l2]; [by rewrite app_nil_r|].
  unfold extended. cbn [app].
  change (x :: l1 ++ y :: l2) with ((x :: l1) ++ y :: l2).
  rewrite slice_last_absorb, <- app_assoc. reflexivity.
Qed.

Lemma appends_ret {A : Type} (a : A) : appends [] (ret a).
Proof. intros w. split; [by exists a | reflexivity]. Qed.

Lemma appends_modify f :
  (forall w, lines (f w) = lines w) -> appends [] (modify f).
Proof. intros Hf w. split; [by exists tt | apply Hf]. Qed.

Lemma appends_bind {A B : Type} l1 l2 (c : M A) (k : A -> M B) :
  appends l1 c -> (forall a, appends l2 (k a)) -> appends (l1 ++ l2) (bind c k).
Proof.
  intros Hc Hk w. unfold bind. destruct (Hc w) as [[a Ha] Hl].
  destruct (c w) as [[a'|e] w']; cbn in Ha, Hl; [|discriminate].
  destruct (Hk a' w') as [Hr Hl']. split; [exact Hr|].
  rewrite Hl', Hl. apply extended_app.
Qed.

Lemma appends_addTranscript e :
  appends [(ti_type e, ti_text e)] (UseWebSocket.addTranscript e).
Proof.
  intros w. split; [by exists tt|].
  unfold lines, extended. cbn.
  rewrite map_app. cbn [map]. rewrite <- (slice_last_snoc 50).
  unfold slice_last. by rewrite <- fmap_drop, length_map.
Qed.

Lemma appends_forEach (fs : list string) :
  appends (map (fun fb => (feedback_entry, fb)) fs)
    (forEach (fun fb => UseWebSocket.addTranscript
                          {| ti_type := feedback_entry; ti_text := fb |}) fs).
Proof.
  induction fs as [|fb fs IH]; cbn [forEach map].
  - apply appends_ret.
  - apply (appends_bind [_] _); [apply appends_addTranscript | intros _; exact IH].
Qed.

Lemma handleMessage_action_result m fs :
  msg_type m = Some "action_result" -> msg_feedback m = Some fs ->
  appends (action_lines m) (handleMessage m).
Proof.
  intros Ht Hf. unfold handleMessage, action_lines.
  rewrite (tag_is_other m _ "world_state" Ht) by discriminate.
  rewrite (tag_is_other m _ "transcript" Ht) by discriminate.
  rewrite (tag_is_true m _ Ht), Hf. cbn [default].
  apply (appends_bind [] _); [by apply appends_modify | intros _].
  apply (appends_bind [] _); [by apply appends_modify | intros _].
  apply appends_bind; [|intros _; apply appends_bind; [|intros _]].
  - destruct (truthy (msg_world_diff m ≫= npc_dialogue)).
    + apply (appends_bind [] _); [by apply appends_modify | intros _].
      apply appends_addTranscript.
    + apply appends_ret.
  - destruct (truthy (msg_world_diff m ≫= world_event)).
    + apply appends_addTranscript.
    + apply appends_ret.
  - apply appends_forEach.
Qed.

(** X28.  An [action_result] message that carries [feedback] is handled
    to completion and extends the transcript log, in this order, by the
    NPC's dialogue when there is one, the world event when there is one,
    and one feedback line per element of [feedback]: the log afterwards
    is the last 51 lines of the old log followed by those lines, and is
    the old log when the message contributes none. *)
Theorem action_result_lines_in_order (m : ServerMessage) (fs : list string)
    (w : World) :
  msg_type m = Some "action_result" ->
  msg_feedback m = Some fs ->
  fst (handleMessage m w) = Normal tt
  /\ lines (snd (handleMessage m w)) = extended (lines w) (action_lines m).
Proof.
  intros Ht Hf.
  destruct (handleMessage_action_result m fs Ht Hf w) as [[[] Hr] Hl].
  by split.
Qed.

Lemma action_result_lines_in_order_witness :
  msg_type apples_bought = Some "action_result"
  /\ lines (snd (handleMessage apples_bought connected_world))
     = [(npc_entry, "Three apples, coming up");
        (system_entry, "Gregor hands you three apples");
        (feedback_entry, "Polite request");
        (feedback_entry, "Quantity given")].
Proof.
  split; [reflexivity|].
  destruct (action_result_lines_in_order apples_bought
              ["Polite request"; "Quantity given"] connected_world
              eq_refl eq_refl) as (_ & H).
  rewrite H. reflexivity.
Defined.

Lemma throws_after_throw {A : Type} e : throws_after e [] (@throw A e).
Proof. intros w. split; reflexivity. Qed.

Lemma throws_after_bind {A B : Type} e l1 l2 (c : M A) (k : A -> M B) :
  appends l1 c -> (forall a, throws_after e l2 (k a)) ->
  throws_after e (l1 ++ l2) (bind c k).
Proof.
  intros Hc Hk w. unfold bind. destruct (Hc w) as [[a Ha] Hl].
  destruct (c w) as [[a'|e'] w']; cbn in Ha, Hl; [|discriminate].
  destruct (Hk a' w') as [Hr Hl']. split; [exact Hr|].
  rewrite Hl', Hl. apply extended_app.
Qed.

Lemma handleMessage_without_feedback m :
  msg_type m = Some "action_result" -> msg_feedback m = None ->
  throws_after (TypeError "message.feedback.forEach") (action_lines m)
    (handleMessage m).
Proof.
  intros Ht Hf. unfold handleMessage, action_lines.
  rewrite (tag_is_other m _ "world_state" Ht) by discriminate.
  rewrite (tag_is_other m _ "transcript" Ht) by discriminate.
  rewrite (tag_is_true m _ Ht), Hf. cbn [default map].
  apply (throws_after_bind _ [] _); [by apply appends_modify | intros _].
  apply (throws_after_bind _ [] _); [by apply appends_modify | intros _].
  apply throws_after_bind; [|intros _; apply throws_after_bind; [|intros _]].
  - destruct (truthy (msg_world_diff m ≫= npc_dialogue)).
    + apply (appends_bind [] _); [by apply appends_modify | intros _].
      apply appends_addTranscript.
    + apply appends_ret.
  - destruct (truthy (msg_world_diff m ≫= world_event)).
    + apply appends_addTranscript.
    + apply appends_ret.
  - apply throws_after_throw.
Qed.

Lemma established_bind {A B : Type} (Q : World -> Prop) (c : M A)
    (k : A -> M B) :
  (forall w, Q (snd (c w))) -> (forall a, keeps Q (k a)) ->
  forall w, Q (snd (bind c k w)).
Proof.
  intros Hc Hk w. unfold bind. specialize (Hc w).
  destruct (c w) as [[a|e] w']; cbn in *; [apply Hk, Hc | exact Hc].
Qed.

Lemma established_after {A B : Type} (Q : World -> Prop) (c : M A)
    (k : A -> M B) :
  returns c -> (forall a w, Q (snd (k a w))) ->
  forall w, Q (snd (bind c k w)).
Proof.
  intros Hc Hk w. unfold bind. destruct (Hc w) as [a Ha].
  destruct (c w) as [[a'|e] w']; cbn in Ha; [apply Hk | discriminate].
Qed.

Lemma handleMessage_without_feedback_store m w :
  msg_type m = Some "action_result" -> msg_feedback m = None ->
  lastAction (store (snd (handleMessage m w))) = msg_parsed_action m
  /\ lastFeedback (store (snd (handleMessage m w))) = None.
Proof.
  intros Ht Hf.
  pose (Q := fun w : World => lastAction (store w) = msg_parsed_action m
                              /\ lastFeedback (store w) = None).
  enough (HQ : forall w, Q (snd (handleMessage m w))) by exact (HQ w).
  clear w. unfold handleMessage.
  rewrite (tag_is_other m _ "world_state" Ht) by discriminate.
  rewrite (tag_is_other m _ "transcript" Ht) by discriminate.
  rewrite (tag_is_true m _ Ht), Hf.
  apply (established_after Q).
  { unfold_hook. returns_split. }
  intros _. apply (established_bind Q).
  { intros w. split; reflexivity. }
  intros _. unfold_hook. keeps_split.
  all: subst Q; cbn beta in *;
    match goal with H : _ /\ _ |- _ => exact H end.
Qed.

(** X3.  An [action_result] message whose [feedback] field is missing is
    applied in part: [handleMessage] records the parsed action with no
    feedback, adds the NPC's dialogue and the world event to the
    transcript log as for a complete message, and then throws the
    [TypeError] of calling [forEach] on the missing field.  What was
    stored and logged before the exception stays. *)
Theorem action_result_without_feedback_is_applied_in_part
    (m : ServerMessage) (w : World) :
  msg_type m = Some "action_result" ->
  msg_feedback m = None ->
  fst (handleMessage m w) = Throw (TypeError "message.feedback.forEach")
  /\ lastAction (store (snd (handleMessage m w))) = msg_parsed_action m
  /\ lastFeedback (store (snd (handleMessage m w))) = None
  /\ lines (snd (handleMessage m w)) = extended (lines w) (action_lines m).
Proof.
  intros Ht Hf.
  destruct (handleMessage_without_feedback m Ht Hf w) as [Hr Hl].
  destruct (handleMessage_without_feedback_store m w Ht Hf) as [Ha Hb].
  by repeat split.
Qed.

Lemma action_result_without_feedback_is_applied_in_part_witness :
  msg_type apples_without_feedback = Some "action_result"
  /\ msg_feedback apples_without_feedback = None
  /\ fst (handleMessage apples_without_feedback connected_world)
     = Throw (TypeError "message.feedback.forEach")
  /\ lines (snd (handleMessage apples_without_feedback connected_world))
     = [(npc_entry, "Three apples, coming up");
        (system_entry, "Gregor hands you three apples")].
Proof.
  split; [reflexivity|]. split; [reflexivity|].
  destruct (action_result_without_feedback_is_applied_in_part
              apples_without_feedback connected_world eq_refl eq_refl)
    as (Hr & _ & _ & Hl).
  split; [exact Hr|]. rewrite Hl. reflexivity.
Defined.

End ActionLines.
